(** * data-records: taxonomy store, directory synchroniser and record generator

    A shallow embedding of [src/dr_manager.py] and of the schema layer of
    [src/tools/console/backend/engine_v1.py], with the properties the
    specification states about them.

    Conventions of the embedding:
    - a Python [str] is the list of its code points ([pystr]);
    - a [pathlib.Path] is the list of its parts, as [PurePosixPath.parts]
      gives them, and [p / key] is [joinpath]: the key is split at its
      slashes, empty segments and single dots are dropped, and a key that
      begins with a slash starts the path anew;
    - the file system is a finite map from paths to nodes, each part of a
      path being the name of one directory entry: a POSIX file system, on
      which names differ when their code points do. The statements about
      directories made from the names of the taxonomy are for names the
      file system takes as they are ([portable_name]);
    - text written with [encoding="utf-8"] is encoded first: a lone
      surrogate makes the write raise and leaves the file empty;
    - code that touches the file system or raises runs in the monad [M]:
      a state monad over the file system whose result is a value or the
      exception raised, the file system at the point of the raise included. *)

From Stdlib Require Import NArith Ascii String.
From stdpp Require Import gmap list sorting.

#[local] Set Warnings "-register-all".
#[local] Open Scope N_scope.

(** ** Python strings *)

Abbreviation pystr := (list N).

(** The code points of an ASCII literal. *)
Definition py (s : string) : pystr := N_of_ascii <$> list_ascii_of_string s.
Arguments py s%_string.

(** [str.isspace] on one code point; the same class is [\s] for a [str]
    pattern of [re] and what [str.strip()] removes. *)
Definition is_space (c : N) : bool :=
  ((9 <=? c) && (c <=? 13)) || ((28 <=? c) && (c <=? 32))
  || (c =? 133) || (c =? 160) || (c =? 5760)
  || ((8192 <=? c) && (c <=? 8202))
  || (c =? 8232) || (c =? 8233) || (c =? 8239) || (c =? 8287) || (c =? 12288).

Section Strip.
Variable P : N → bool.

Fixpoint lstrip (s : pystr) : pystr :=
  match s with
  | [] => []
  | c :: r => if P c then lstrip r else s
  end.

Definition rstrip (s : pystr) : pystr := reverse (lstrip (reverse s)).

(** [s.strip(chars)] with [P] the membership test of [chars]. *)
Definition strip (s : pystr) : pystr := rstrip (lstrip s).
End Strip.

(** [re.sub(pat, repl, s)] for a pattern [pat] that matches a run of at
    least [k] characters of the class [P], greedily: every maximal run of
    length [>= k] becomes [repl], shorter runs stay. [run] is the run read
    so far. *)
Section ReSub.
Variable P : N → bool.
Variable k : nat.
Variable repl : pystr.

Definition flush (run : pystr) : pystr :=
  if (k <=? length run)%nat then repl else run.

Fixpoint sub_runs (run s : pystr) : pystr :=
  match s with
  | [] => flush run
  | c :: r =>
      if P c then sub_runs (run ++ [c]) r
      else flush run ++ c :: sub_runs [] r
  end.
End ReSub.

(** The class of the second [re.sub]: the nine reserved characters
    (less-than, greater-than, colon, double quote, slash, backslash, bar,
    question mark, star) and the code points 0 to 31. *)
Definition is_reserved (c : N) : bool :=
  (c =? 60) || (c =? 62) || (c =? 58) || (c =? 34) || (c =? 47)
  || (c =? 92) || (c =? 124) || (c =? 63) || (c =? 42).

Definition is_illegal (c : N) : bool := is_reserved c || (c <=? 31).

(** The class [[-_]]. *)
Definition is_sep (c : N) : bool := (c =? 45) || (c =? 95).

(** Membership in the argument of the final [strip]: hyphen, underscore,
    dot. *)
Definition is_edge (c : N) : bool := is_sep c || (c =? 46).

Definition is_empty {A} (s : list A) : bool :=
  match s with [] => true | _ => false end.

Definition slugify_filename (name : pystr) : pystr :=
  let name := strip is_space name in
  if is_empty name then py "unnamed-product"
  else
    let name := sub_runs is_space 1 (py "-") [] name in
    let name := filter (λ c, is_illegal c = false) name in
    let name := strip is_edge (sub_runs is_sep 2 (py "-") [] name) in
    if is_empty name then py "unnamed-product" else name.


(** Python compares two [str] by code points, lexicographically. *)
Fixpoint str_leb (a b : pystr) : bool :=
  match a, b with
  | [], _ => true
  | _ :: _, [] => false
  | x :: a', y :: b' =>
      if x <? y then true else if y <? x then false else str_leb a' b'
  end.

Definition str_le (a b : pystr) : Prop := str_leb a b = true.

#[global] Instance str_le_dec a b : Decision (str_le a b).
Proof. unfold str_le. apply _. Defined.

(** [sorted(xs)] and [xs.sort()] on a list of [str]. *)
Definition sorted (l : list pystr) : list pystr := merge_sort str_le l.

(** [sep.join(parts)]. *)
Fixpoint join (sep : pystr) (parts : list pystr) : pystr :=
  match parts with
  | [] => []
  | [x] => x
  | x :: rest => x ++ sep ++ join sep rest
  end.

(** [needle in hay] for two [str]. *)
Fixpoint str_contains (needle hay : pystr) : bool :=
  match hay with
  | [] => is_empty needle
  | _ :: r => bool_decide (needle `prefix_of` hay) || str_contains needle r
  end.

(** [s.startswith(p)]. *)
Definition startswith (s p : pystr) : bool := bool_decide (p `prefix_of` s).

(** The line boundaries of [str.splitlines]. *)
Definition is_linebreak (c : N) : bool :=
  ((10 <=? c) && (c <=? 13)) || ((28 <=? c) && (c <=? 30))
  || (c =? 133) || (c =? 8232) || (c =? 8233).

(** [s.splitlines()]; [cur] is the line read so far. A carriage return
    followed by a line feed is one boundary. *)
Fixpoint splitlines_from (cur s : pystr) : list pystr :=
  match s with
  | [] => if is_empty cur then [] else [cur]
  | c :: r =>
      if is_linebreak c then
        cur :: match r with
               | c' :: r' =>
                   if (c =? 13) && (c' =? 10) then splitlines_from [] r'
                   else splitlines_from [] r
               | [] => []
               end
      else splitlines_from (cur ++ [c]) r
  end.

Definition splitlines (s : pystr) : list pystr := splitlines_from [] s.

(** [s.replace(a, b)] for a one-character [a]. *)
Definition replace_char (a : N) (b s : pystr) : pystr :=
  s ≫= (λ c, if c =? a then b else [c]).

(** ** Results, exceptions and the monad *)

Abbreviation Path := (list pystr).

Inductive os_error :=
| FileExistsError | NotADirectoryError | FileNotFoundError | IsADirectoryError.

(** One violation of a pydantic model: the field and what is wrong. *)
Inductive violation :=
| Missing (field : pystr)
| TooShort (field : pystr)
| TooLong (field : pystr)
| BadPattern (field : pystr)
| ValueError (field msg : pystr)
| AtIndex (field : pystr) (i : nat) (v : violation).

Inductive exn :=
| SystemExit (msg : pystr)
| OSError (kind : os_error) (p : Path)
| JSONDecodeError
| TypeError
| AttributeError
| UnicodeEncodeError
| ValidationError (errors : list violation)
| IllTyped.

Inductive res (A : Type) :=
| Ok (a : A)
| Raise (e : exn).
Arguments Ok {A} a.
Arguments Raise {A} e.

(** A computation over a mutable state [S] that returns or raises; the
    state at the raise is kept, as the effects of a Python call are. *)
Definition M (S A : Type) : Type := S → S * res A.

Definition raise {S A} (e : exn) : M S A := λ s, (s, Raise e).

#[global] Instance M_ret {S} : MRet (M S) := λ A a s, (s, Ok a).

#[global] Instance M_bind {S} : MBind (M S) := λ A B k m s,
  match m s with
  | (s', Ok a) => k a s'
  | (s', Raise e) => (s', Raise e)
  end.

(** A [for] loop that threads an accumulator. *)
Fixpoint foldM {S A B} (f : B → A → M S B) (b : B) (l : list A) : M S B :=
  match l with
  | [] => mret b
  | x :: l' => b' ← f b x; foldM f b' l'
  end.

(** ** JSON values and file contents *)

(** What [json.loads] returns. A Python dict is a finite map; numbers are
    kept as integers. *)
Inductive json :=
| JNull
| JBool (b : bool)
| JNum (z : Z)
| JStr (s : pystr)
| JArr (l : list json)
| JObj (m : gmap pystr json).

(** The text of a file. A text written with [json.dumps] is kept as the
    value it denotes, so [json.loads] of it is that value; [Plain] is text
    that is not a JSON document (the stubs begin with a hash sign). *)
Inductive text :=
| Plain (t : pystr)
| JsonText (j : json).

Definition json_dumps (j : json) : text := JsonText j.

Definition json_loads (t : text) : res json :=
  match t with
  | JsonText j => Ok j
  | Plain _ => Raise JSONDecodeError
  end.

(** What the UTF-8 codec cannot encode: the surrogate code points, which a
    Python [str] may hold on their own (a name given on the command line
    as a byte that is not UTF-8 arrives as one, and so does an escape of a
    JSON document). [json.dumps(..., ensure_ascii=False)] writes the
    strings of a document as they are. *)
Definition is_surrogate (c : N) : bool := (55296 <=? c) && (c <=? 57343).

Definition str_encodable (s : pystr) : bool :=
  forallb (λ c, negb (is_surrogate c)) s.

Fixpoint json_encodable (j : json) : bool :=
  match j with
  | JStr s => str_encodable s
  | JArr l => forallb json_encodable l
  | JObj m =>
      map_fold (λ k v ok, str_encodable k && json_encodable v && ok) true m
  | _ => true
  end.

Definition text_encodable (t : text) : bool :=
  match t with
  | Plain s => str_encodable s
  | JsonText j => json_encodable j
  end.

(** ** The file system *)

Inductive node :=
| Dir
| File (content : text).

Abbreviation FS := (gmap Path node).

Definition path_exists (p : Path) : M FS bool :=
  λ fs, (fs, Ok (bool_decide (is_Some (fs !! p)))).

(** [Path.mkdir(parents=True, exist_ok=True)]: every missing directory on
    the way down to the path is created; a regular file on the way is an
    error. [done] is the prefix reached, [todo] the components left. *)
Fixpoint mkdir_parents (done : Path) (todo : list pystr) : M FS unit :=
  λ fs,
    let next fs' :=
      match todo with
      | [] => (fs', Ok ())
      | c :: todo' => mkdir_parents (done ++ [c]) todo' fs'
      end in
    match fs !! done with
    | Some Dir => next fs
    | None => next (<[done := Dir]> fs)
    | Some (File _) =>
        (fs, Raise (OSError (if is_empty todo then FileExistsError
                             else NotADirectoryError) done))
    end.

Definition ensure_dir (p : Path) : M FS unit := mkdir_parents [] p.

Definition parent (p : Path) : Path := removelast p.

(** [Path.write_text] and [open(path, 'w')] followed by writes: the file is
    created or replaced in full. *)
Definition write_text (p : Path) (t : text) : M FS unit :=
  λ fs,
    match fs !! p with
    | Some Dir => (fs, Raise (OSError IsADirectoryError p))
    | _ =>
        match fs !! parent p with
        | Some Dir => (<[p := File t]> fs, Ok ())
        | Some (File _) => (fs, Raise (OSError NotADirectoryError p))
        | None => (fs, Raise (OSError FileNotFoundError p))
        end
    end.

(** [Path.write_text(data, encoding="utf-8")]: the file is opened for
    writing, which creates or empties it, and the text is encoded before
    any of it is written. *)
Definition write_text_utf8 (p : Path) (t : text) : M FS unit :=
  if text_encodable t then write_text p t
  else write_text p (Plain []);; raise UnicodeEncodeError.

Definition read_text (p : Path) : M FS text :=
  λ fs,
    match fs !! p with
    | Some (File t) => (fs, Ok t)
    | Some Dir => (fs, Raise (OSError IsADirectoryError p))
    | None => (fs, Raise (OSError FileNotFoundError p))
    end.

(** [s.split("/")]; [cur] is the segment read so far. *)
Fixpoint split_slash (cur s : pystr) : list pystr :=
  match s with
  | [] => [cur]
  | c :: r => if c =? 47 then cur :: split_slash [] r
              else split_slash (cur ++ [c]) r
  end.

(** The parts pathlib keeps of a relative path string: its segments other
    than the empty one and the single dot. Two dots stay a part. *)
Definition path_parts (rel : pystr) : list pystr :=
  filter (λ x, x ≠ [] ∧ x ≠ py ".") (split_slash [] rel).

(** [p / key] for a path [p] and a [str] key, on a POSIX system. A key
    that begins with a slash is absolute and replaces [p]; its first part
    is then the root, which is two slashes when the key begins with
    exactly two. *)
Definition joinpath (p : Path) (key : pystr) : Path :=
  match key with
  | c :: _ =>
      if c =? 47 then
        let rel := lstrip (N.eqb 47) key in
        (if (length key - length rel =? 2)%nat then py "//" else py "/")
          :: path_parts rel
      else p ++ path_parts key
  | [] => p
  end.

(** ** The taxonomy store ([dr_manager.Store]) *)

(** [Dict[str, Dict[str, List[str]]]]: country, then primary category,
    then the list of secondary categories. *)
Abbreviation Doc := (gmap pystr (gmap pystr (list pystr))).

(** The dataclass. [Store.load] fills [data] with whatever [json.loads]
    returned ([D = json]); the methods are written for the declared type
    ([D = Doc]). *)
Record Store (D : Type) := mkStore {
  root : Path;
  meta_dir : Path;
  meta_file : Path;
  data : D;
}.
Arguments mkStore {D} _ _ _ _.
Arguments root {D} _.
Arguments meta_dir {D} _.
Arguments meta_file {D} _.
Arguments data {D} _.

Definition with_data {D E} (d : E) (self : Store D) : Store E :=
  mkStore (root self) (meta_dir self) (meta_file self) d.

(** The JSON value of a well-typed document, and the way back. *)
Definition list_to_json (l : list pystr) : json := JArr (JStr <$> l).
Definition cat1s_to_json (m : gmap pystr (list pystr)) : json :=
  JObj (list_to_json <$> m).
Definition to_json (d : Doc) : json := JObj (cat1s_to_json <$> d).

Definition traverse {A B} (f : A → option B) (m : gmap pystr A)
  : option (gmap pystr B) :=
  if decide (map_Forall (λ _ a, is_Some (f a)) m) then Some (omap f m)
  else None.

Definition str_of_json (j : json) : option pystr :=
  match j with JStr s => Some s | _ => None end.
Definition list_of_json (j : json) : option (list pystr) :=
  match j with JArr l => mapM str_of_json l | _ => None end.
Definition cat1s_of_json (j : json) : option (gmap pystr (list pystr)) :=
  match j with JObj m => traverse list_of_json m | _ => None end.
Definition of_json (j : json) : option Doc :=
  match j with JObj m => traverse cat1s_of_json m | _ => None end.

(** The store seen at its declared type, when the loaded value has it. *)
Definition typed (s : Store json) : option (Store Doc) :=
  d ← of_json (data s); Some (with_data d s).

Definition lift {S A} (r : res A) : M S A := λ s, (s, r).

(** ["cn" not in raw] and [raw["cn"] = {}] on a value of any JSON type:
    membership is key membership on a dict, element membership on a list,
    substring on a string and a [TypeError] otherwise; item assignment
    with a string key works on a dict only. *)
Definition contains_cn (raw : json) : res bool :=
  match raw with
  | JObj m => Ok (bool_decide (is_Some (m !! py "cn")))
  | JArr l =>
      Ok (existsb (λ x, match x with
                        | JStr s => bool_decide (s = py "cn")
                        | _ => false
                        end) l)
  | JStr s => Ok (str_contains (py "cn") s)
  | _ => Raise TypeError
  end.

Definition setitem_cn (raw : json) : res json :=
  match raw with
  | JObj m => Ok (JObj (<[py "cn" := JObj ∅]> m))
  | _ => Raise TypeError
  end.

Definition load (root : Path) : M FS (Store json) :=
  let meta_dir := root ++ [py "_meta"] in
  let meta_file := meta_dir ++ [py "categories.json"] in
  ensure_dir meta_dir;;
  found ← path_exists meta_file;
  raw ← (if found : bool then
           t ← read_text meta_file; lift (json_loads t)
         else
           let raw := JObj {[ py "cn" := JObj ∅ ]} in
           write_text_utf8 meta_file (json_dumps raw);; mret raw);
  has ← lift (contains_cn raw);
  raw ← (if has : bool then mret raw else lift (setitem_cn raw));
  mret (mkStore root meta_dir meta_file raw).

Definition save (self : Store Doc) : M FS unit :=
  write_text_utf8 (meta_file self) (json_dumps (to_json (data self))).

Definition keys {A} (m : gmap pystr A) : list pystr := (map_to_list m).*1.

Definition countries (self : Store Doc) : list pystr :=
  sorted (keys (data self)).


Definition cat1_list (self : Store Doc) (country : pystr) : list pystr :=
  sorted (keys (default ∅ (data self !! country))).

Definition cat2_list (self : Store Doc) (country cat1 : pystr) : list pystr :=
  sorted (default [] (default ∅ (data self !! country) !! cat1)).

Definition add_country (country : pystr) (self : Store Doc) : Store Doc :=
  if bool_decide (is_Some (data self !! country)) then self
  else with_data (<[country := ∅]> (data self)) self.

(** [self.data[country].setdefault(cat1, [])]; the country is there after
    [add_country]. *)
Definition add_cat1 (country cat1 : pystr) (self : Store Doc) : Store Doc :=
  let self := add_country country self in
  let c := data self !!! country in
  if bool_decide (is_Some (c !! cat1)) then self
  else with_data (<[country := <[cat1 := []]> c]> (data self)) self.

(** [lst] is the list object held by the document, so appending to it and
    sorting it updates the document. *)
Definition add_cat2 (country cat1 cat2 : pystr) (self : Store Doc) : Store Doc :=
  let self := add_cat1 country cat1 self in
  let c := data self !!! country in
  let lst := c !!! cat1 in
  if bool_decide (cat2 ∈ lst) then self
  else with_data (<[country := <[cat1 := sorted (lst ++ [cat2])]> c]> (data self)) self.

(** [lst.remove(x)]: the first occurrence goes. *)
Fixpoint remove_first (x : pystr) (l : list pystr) : list pystr :=
  match l with
  | [] => []
  | y :: l' => if bool_decide (x = y) then l' else y :: remove_first x l'
  end.

Definition remove_cat2 (country cat1 cat2 : pystr) (self : Store Doc)
  : bool * Store Doc :=
  let c := default ∅ (data self !! country) in
  match c !! cat1 with
  | None => (false, self)
  | Some lst =>
      if is_empty lst then (false, self)
      else if bool_decide (cat2 ∈ lst) then
        (true, with_data (<[country := <[cat1 := remove_first cat2 lst]> c]> (data self)) self)
      else (false, self)
  end.

Definition remove_cat1 (country cat1 : pystr) (self : Store Doc)
  : bool * Store Doc :=
  match data self !! country with
  | None => (false, self)
  | Some c =>
      if bool_decide (c = ∅) || negb (bool_decide (is_Some (c !! cat1)))
      then (false, self)
      else (true, with_data (<[country := delete cat1 c]> (data self)) self)
  end.

(** Truth value of an [Optional[str]]: [None] and the empty string are
    false. *)
Definition truthy (o : option pystr) : bool :=
  match o with Some (_ :: _) => true | _ => false end.

Definition sync_dirs (self : Store Doc) (country : option pystr)
  : M FS (list Path) :=
  let countries :=
    if truthy country then [default [] country] else countries self in
  foldM (λ created c,
    foldM (λ created cat1,
      foldM (λ created cat2,
        let p := joinpath (joinpath (joinpath (root self) c) cat1) cat2 in
        found ← path_exists p;
        if found : bool then mret created
        else ensure_dir p;; mret (created ++ [p]))
      created (cat2_list self c cat1))
    created (cat1_list self c))
  [] countries.

Definition target_dir (self : Store Doc) (country cat1 cat2 : pystr) : Path :=
  joinpath (joinpath (joinpath (root self) country) cat1) cat2.

(** ** Rendering a stub *)

Definition yaml_escape_multiline (text : pystr) (indent : nat) : pystr :=
  let pad := replicate indent 32 in
  let lines := match splitlines text with [] => [[]] | ls => ls end in
  join (py (String "010" "")) ((λ line, pad ++ line) <$> lines).

(** [now] is what [now_iso()] returns at the call. *)
Definition render_yaml_template (now product_name description country cat1 cat2 : pystr)
  : pystr :=
  let safe_name := replace_char 34 [92; 34] product_name in
  let header := [
    py "# data-records.net product stub";
    py "# generated_at: " ++ now;
    py "# path: " ++ country ++ py "/" ++ cat1 ++ py "/" ++ cat2 ++ py "/"
      ++ slugify_filename product_name ++ py ".yaml";
    [];
    py "product:";
    py "  name: " ++ [34] ++ safe_name ++ [34];
    py "  description: |";
    yaml_escape_multiline description 4;
    []
  ] in
  rstrip is_space (join [10] header) ++ [10].

(** ** The commands *)

(** The state of one run: the store object and the disk. *)
Record World := mkWorld {
  the_store : Store Doc;
  disk : FS;
}.

Definition on_disk {A} (m : M FS A) : M World A :=
  λ w, let '(fs, r) := m (disk w) in (mkWorld (the_store w) fs, r).

Definition get_store : M World (Store Doc) := λ w, (w, Ok (the_store w)).

Definition update (f : Store Doc → Store Doc) : M World unit :=
  λ w, (mkWorld (f (the_store w)) (disk w), Ok ()).

Definition update_flag (f : Store Doc → bool * Store Doc) : M World bool :=
  λ w, let '(b, s) := f (the_store w) in (mkWorld s (disk w), Ok b).

Definition store_save : M World unit := store ← get_store; on_disk (save store).

Definition cmd_add (country : pystr) (cat1 cat2 : option pystr) : M World unit :=
  if negb (truthy cat1) then
    update (add_country country);; store_save
  else if negb (truthy cat2) then
    update (add_cat1 country (default [] cat1));; store_save
  else
    update (add_cat2 country (default [] cat1) (default [] cat2));; store_save.

Definition cmd_rm (country cat1 : pystr) (cat2 : option pystr) : M World bool :=
  if truthy cat2 then
    ok ← update_flag (remove_cat2 country cat1 (default [] cat2));
    store_save;; mret ok
  else
    ok ← update_flag (remove_cat1 country cat1);
    store_save;; mret ok.

Definition cmd_sync (country : option pystr) : M World (list Path) :=
  store ← get_store; on_disk (sync_dirs store country).

(** [str(path)], with a slash between the components. *)
Definition path_str (p : Path) : pystr := join (py "/") p.

Definition msg_no_country (country : pystr) : pystr :=
  py "country '" ++ country ++ py "' not in meta. Add it first.".
Definition msg_no_cat1 (country cat1 : pystr) : pystr :=
  py "cat1 '" ++ cat1 ++ py "' not in meta under " ++ country
    ++ py ". Add it first.".
Definition msg_no_cat2 (country cat1 cat2 : pystr) : pystr :=
  py "cat2 '" ++ cat2 ++ py "' not in meta under " ++ country ++ py "/"
    ++ cat1 ++ py ". Add it first.".
Definition msg_exists (out_path : Path) : pystr :=
  py "File already exists: " ++ path_str out_path
    ++ py " (use --overwrite to replace)".

(** The stub is written with [encoding="utf-8"]. The text of the clock is
    ASCII ([now_iso] renders digits, hyphens, colons and the letters T and
    Z), so the stub can be encoded exactly when the rest of it can. *)
Definition cmd_gen (now country cat1 cat2 name desc : pystr) (overwrite : bool)
  : M World unit :=
  store ← get_store;
  if negb (bool_decide (is_Some (data store !! country))) then
    raise (SystemExit (msg_no_country country))
  else if negb (bool_decide (is_Some ((data store !!! country) !! cat1))) then
    raise (SystemExit (msg_no_cat1 country cat1))
  else if negb (bool_decide
                  (cat2 ∈ default [] ((data store !!! country) !! cat1))) then
    raise (SystemExit (msg_no_cat2 country cat1 cat2))
  else
    on_disk (sync_dirs store (Some country));;
    let target_dir := target_dir store country cat1 cat2 in
    on_disk (ensure_dir target_dir);;
    let fname := slugify_filename name ++ py ".yaml" in
    let out_path := joinpath target_dir fname in
    found ← on_disk (path_exists out_path);
    if (found : bool) && negb overwrite then
      raise (SystemExit (msg_exists out_path))
    else
      let yaml_text := render_yaml_template now name desc country cat1 cat2 in
      let rest := render_yaml_template [] name desc country cat1 cat2 in
      if str_encodable rest then
        on_disk (write_text out_path (Plain yaml_text))
      else
        on_disk (write_text out_path (Plain []));; raise UnicodeEncodeError.

(** The parsed command line. *)
Inductive command :=
| CmdList (country : pystr)
| CmdAdd (country : pystr) (cat1 cat2 : option pystr)
| CmdRm (country cat1 : pystr) (cat2 : option pystr)
| CmdSync (country : option pystr)
| CmdGen (country cat1 cat2 name desc : pystr) (overwrite : bool).

(** [cmd_list] prints the countries and the categories of one country; it
    changes neither the store nor the disk. *)
Definition cmd_list (country : pystr) : M World unit := mret ().

(** A command run on the store object of the process; its value is
    dropped, as [main] does. *)
Definition run_with {A : Type} (store : Store Doc) (m : M World A) : M FS unit :=
  λ fs,
    let '(w, r) := m (mkWorld store fs) in
    (disk w, match r with Ok _ => Ok () | Raise e => Raise e end).

(** One run of the program. [IllTyped] stands for a
    metadata file that is JSON but not of the declared type: what the
    methods do on such data is not modelled. *)
Definition main (now : pystr) (root : Path) (cmd : command) : M FS unit :=
  ensure_dir root;;
  raw ← load root;
  match typed raw with
  | None => raise IllTyped
  | Some store =>
      match cmd with
      | CmdList country => run_with store (cmd_list country)
      | CmdAdd country cat1 cat2 => run_with store (cmd_add country cat1 cat2)
      | CmdRm country cat1 cat2 => run_with store (cmd_rm country cat1 cat2)
      | CmdSync country => run_with store (cmd_sync country)
      | CmdGen country cat1 cat2 name desc overwrite =>
          run_with store (cmd_gen now country cat1 cat2 name desc overwrite)
      end
  end.

(** ** The schema layer ([engine_v1]) *)

Definition ASSETS_DOMAIN : pystr := py "assets.data-records.net".

(** The keyword arguments given to [AssetSchema]; [None] is a key that is
    not given. *)
Record AssetInput := mkAssetInput {
  role : option pystr;
  hash_sha256 : option pystr;
  uri : option pystr;
}.

Record Asset := mkAsset {
  asset_role : pystr;
  asset_hash : pystr;
  asset_uri : pystr;
}.

Definition required (field : pystr) (v : option pystr) : list violation :=
  match v with None => [Missing field] | Some _ => [] end.

(** [Field(..., min_length=64, max_length=64)]. *)
Definition check_hash (v : option pystr) : list violation :=
  match v with
  | None => [Missing (py "hash_sha256")]
  | Some h =>
      if (length h <? 64)%nat then [TooShort (py "hash_sha256")]
      else if (64 <? length h)%nat then [TooLong (py "hash_sha256")]
      else []
  end.

Definition uri_message : pystr :=
  py "Entropy Error: Asset URI must point to " ++ ASSETS_DOMAIN
    ++ py " subgraph.".

Definition validate_uri (v : option pystr) : list violation :=
  match v with
  | None => [Missing (py "uri")]
  | Some u =>
      if startswith u (py "https://" ++ ASSETS_DOMAIN ++ py "/") then []
      else [ValueError (py "uri") uri_message]
  end.

(** The violations pydantic collects for one asset, field by field. *)
Definition asset_errors (a : AssetInput) : list violation :=
  required (py "role") (role a) ++ check_hash (hash_sha256 a)
    ++ validate_uri (uri a).

Definition AssetSchema (a : AssetInput) : res Asset :=
  match asset_errors a with
  | [] => Ok (mkAsset (default [] (role a)) (default [] (hash_sha256 a))
                (default [] (uri a)))
  | errs => Raise (ValidationError errs)
  end.

(** The violations of the field [assets: List[AssetSchema]], each with the
    index of its asset. *)
Definition assets_errors (l : list AssetInput) : list violation :=
  mjoin (imap (λ i a, AtIndex (py "assets") i <$> asset_errors a) l).

Record RecordInput := mkRecordInput {
  record_id : option pystr;
  timestamp : option pystr;
  subject : option (gmap pystr pystr);
  assets : option (list AssetInput);
  rights_owner : option pystr;
}.

Record ValidRecord := mkValidRecord {
  rec_id : pystr;
  rec_timestamp : pystr;
  rec_subject : gmap pystr pystr;
  rec_assets : list Asset;
  rec_rights_owner : pystr;
}.

Definition is_upper_AZ (c : N) : bool := (65 <=? c) && (c <=? 90).

Section Engine.
(** Library behaviour the engine relies on: the class [\d] of [re], 
    [str.isalnum] on one character, whether [datetime.fromisoformat]
    accepts a string, and the JSON text pydantic renders for a validated
    record. *)
Variable is_decimal : N → bool.
Variable isalnum : N → bool.
Variable fromisoformat_ok : pystr → bool.
Variable record_json : ValidRecord → pystr.

(** The pattern of [record_id]; the dollar sign also matches before one
    final line feed. *)
Definition record_id_ok (s : pystr) : bool :=
  let body := match reverse s with 10 :: r => reverse r | _ => s end in
  let shape (t : pystr) :=
    match t with
    | [a1; a2; h1; b1; b2; b3; h2; c1; c2; c3; h3; d1; d2; d3] =>
        forallb is_upper_AZ [a1; a2; b1; b2; b3; c1; c2; c3]
        && forallb (N.eqb 45) [h1; h2; h3]
        && forallb is_decimal [d1; d2; d3]
    | _ => false
    end in
  shape s || shape body.

Definition check_record_id (v : option pystr) : list violation :=
  match v with
  | None => [Missing (py "record_id")]
  | Some s => if record_id_ok s then [] else [BadPattern (py "record_id")]
  end.

(** [datetime.fromisoformat(v.replace("Z", "+00:00"))]. *)
Definition validate_timestamp (v : option pystr) : list violation :=
  match v with
  | None => [Missing (py "timestamp")]
  | Some s =>
      if fromisoformat_ok (replace_char 90 (py "+00:00") s) then []
      else [ValueError (py "timestamp")
              (py "Timestamp must be valid ISO 8601 UTC")]
  end.

Definition record_errors (d : RecordInput) : list violation :=
  check_record_id (record_id d) ++ validate_timestamp (timestamp d)
    ++ match subject d with None => [Missing (py "subject")] | Some _ => [] end
    ++ match assets d with
       | None => [Missing (py "assets")]
       | Some l => assets_errors l
       end.

Definition to_asset (a : AssetInput) : Asset :=
  mkAsset (default [] (role a)) (default [] (hash_sha256 a))
    (default [] (uri a)).

Definition RecordSchema (d : RecordInput) : res ValidRecord :=
  match record_errors d with
  | [] =>
      Ok (mkValidRecord (default [] (record_id d)) (default [] (timestamp d))
            (default ∅ (subject d)) (to_asset <$> default [] (assets d))
            (default (py "Data-Records Asset Custodian") (rights_owner d)))
  | errs => Raise (ValidationError errs)
  end.

Definition record_filename (d : RecordInput) : pystr :=
  let subj := default ∅ (subject d) in
  let filename :=
    default (py "unknown") (subj !! py "brand") ++ py "-"
      ++ default (py "unknown") (subj !! py "name") ++ py ".yaml" in
  strip is_space
    (filter (λ c, isalnum c || (c =? 45) || (c =? 95) = true) filename)
    ++ py ".yaml".

Definition generate_record_yaml (d : RecordInput) (output_dir : Path)
  : M FS Path :=
  record ← lift (RecordSchema d);
  let filename := record_filename d in
  found ← path_exists output_dir;
  (if found : bool then mret () else ensure_dir output_dir);;
  let output_path := output_dir ++ [filename] in
  write_text output_path
    (Plain (py "# Data Records Canonical Entry" ++ [10]
            ++ py "# ID: " ++ rec_id record ++ [10]
            ++ record_json record));;
  mret output_path.
End Engine.

(** ** Vocabulary of the statements *)

(** The first character, if any, is outside the class [P]. *)
Definition hd_free (P : N → bool) (s : pystr) : Prop :=
  match s with [] => True | c :: _ => P c = false end.

(** No two neighbours are both in the class [P]. *)
Fixpoint adj_free (P : N → bool) (s : pystr) : Prop :=
  match s with
  | [] => True
  | c :: r => (P c = true → hd_free P r) ∧ adj_free P r
  end.

(** What [slugify_filename] returns: a fixed point of it. *)
Definition clean (s : pystr) : Prop :=
  s ≠ []
  ∧ Forall (λ c, is_space c = false ∧ is_illegal c = false) s
  ∧ adj_free is_sep s
  ∧ hd_free is_edge s
  ∧ hd_free is_edge (reverse s).


(** The paths [mkdir_parents] visits: [done] and each longer prefix of
    [done ++ todo]. *)
Fixpoint prefixes_from (done : Path) (todo : list pystr) : list Path :=
  done :: match todo with
          | [] => []
          | c :: todo' => prefixes_from (done ++ [c]) todo'
          end.

(** The countries one synchronisation covers. *)
Definition sync_countries (self : Store Doc) (country : option pystr)
  : list pystr :=
  if truthy country then [default [] country] else countries self.

(** The directories of the triples of the document, in the order the
    loops of [sync_dirs] visit them. *)
Definition triple_paths (self : Store Doc) (country : option pystr)
  : list Path :=
  c ← sync_countries self country;
  cat1 ← cat1_list self c;
  cat2 ← cat2_list self c cat1;
  [target_dir self c cat1 cat2].

(** The triples one synchronisation visits, in the order of its loops. *)
Definition triples (self : Store Doc) (country : option pystr)
  : list (pystr * pystr * pystr) :=
  c ← sync_countries self country;
  cat1 ← cat1_list self c;
  cat2 ← cat2_list self c cat1;
  [(c, cat1, cat2)].

(** The length of the UTF-8 encoding, in bytes. *)
Definition utf8_bytes (c : N) : nat :=
  if c <? 128 then 1 else if c <? 2048 then 2 else if c <? 65536 then 3 else 4.

Definition utf8_len (s : pystr) : nat := sum_list (utf8_bytes <$> s).

(** A name that is one part of a path and that a POSIX file system takes
    as it is: not empty, not a single or a double dot, without slash and
    without NUL, without surrogate code points, and of at most 255 bytes. *)
Definition portable_name (k : pystr) : bool :=
  negb (is_empty k) && negb (bool_decide (k = py "."))
  && negb (bool_decide (k = py ".."))
  && forallb (λ c, negb (c =? 47) && negb (c =? 0) && negb (is_surrogate c)) k
  && (utf8_len k <=? 255)%nat.

(** A relative path of such names, of at most 4095 bytes. *)
Definition os_path (p : Path) : bool :=
  forallb portable_name p && (utf8_len (join (py "/") p) <=? 4095)%nat.

(** Every triple a synchronisation visits names, under the root, such a
    path. *)
Definition names_ok (self : Store Doc) (country : option pystr) : bool :=
  forallb (λ '(c, cat1, cat2), os_path (root self ++ [c; cat1; cat2]))
    (triples self country).

(** The body of the innermost loop of [sync_dirs]. *)
Definition sync_step (created : list Path) (p : Path) : M FS (list Path) :=
  found ← path_exists p;
  if found : bool then mret created
  else ensure_dir p;; mret (created ++ [p]).

(** ** Sample data of the examples *)

Definition sample_root : Path := [py "data-records"].

(** A root directory that exists and is empty. *)
Definition empty_root : FS := {[ [] := Dir; sample_root := Dir ]}.

Definition sample_store (d : Doc) : Store Doc :=
  mkStore sample_root (sample_root ++ [py "_meta"])
    (sample_root ++ [py "_meta"; py "categories.json"]) d.

Definition snacks_doc : Doc :=
  {[ py "cn" := {[ py "food" := [py "snacks"] ]} ]}.

Definition snacks_dir : Path := sample_root ++ [py "cn"; py "food"; py "snacks"].


(** How often [x] occurs in [l]. *)
Definition occurrences (x : pystr) (l : list pystr) : nat :=
  length (filter (λ y, y = x) l).

(** The invariant of the data model on one list of secondary categories,
    and on a document. *)
Definition list_ok (l : list pystr) : Prop := Sorted str_le l ∧ NoDup l.

Definition doc_ok (d : Doc) : Prop :=
  ∀ c m cat1 l, d !! c = Some m → m !! cat1 = Some l → list_ok l.

(** Where [load] keeps the metadata document of a root. *)
Definition meta_dir_of (root : Path) : Path := root ++ [py "_meta"].
Definition meta_file_of (root : Path) : Path :=
  meta_dir_of root ++ [py "categories.json"].

(** The document [load] writes when there is none. *)
Definition default_raw : json := JObj {[ py "cn" := JObj ∅ ]}.

(** The end of [load]: the key [cn] is added when it is missing. *)
Definition load_finish (root : Path) (raw : json) (fs : FS)
  : FS * res (Store json) :=
  let store raw := mkStore root (meta_dir_of root) (meta_file_of root) raw in
  match contains_cn raw with
  | Raise e => (fs, Raise e)
  | Ok true => (fs, Ok (store raw))
  | Ok false =>
      match setitem_cn raw with
      | Ok raw' => (fs, Ok (store raw'))
      | Raise e => (fs, Raise e)
      end
  end.

(** A metadata file that is JSON but no country-to-categories mapping:
    the value of the country is a number. *)
Definition number_raw : json := JObj {[ py "cn" := JNum 5 ]}.

Definition number_meta : FS :=
  {[ meta_file_of sample_root := File (JsonText number_raw);
     meta_dir_of sample_root := Dir; sample_root := Dir; [] := Dir ]}.



(** No name of the document holds a surrogate: its text can be encoded. *)
Definition doc_encodable (d : Doc) : Prop :=
  ∀ c m, d !! c = Some m →
    str_encodable c = true
    ∧ ∀ cat1 l, m !! cat1 = Some l →
        str_encodable cat1 = true ∧ Forall (λ x, str_encodable x = true) l.

(** The methods that change the document. *)
Inductive store_op :=
| OpAddCountry (country : pystr)
| OpAddCat1 (country cat1 : pystr)
| OpAddCat2 (country cat1 cat2 : pystr)
| OpRemoveCat1 (country cat1 : pystr)
| OpRemoveCat2 (country cat1 cat2 : pystr).

Definition apply_op (self : Store Doc) (op : store_op) : Store Doc :=
  match op with
  | OpAddCountry c => add_country c self
  | OpAddCat1 c cat1 => add_cat1 c cat1 self
  | OpAddCat2 c cat1 cat2 => add_cat2 c cat1 cat2 self
  | OpRemoveCat1 c cat1 => (remove_cat1 c cat1 self).2
  | OpRemoveCat2 c cat1 cat2 => (remove_cat2 c cat1 cat2 self).2
  end.

(** The states a run can be in: [load] gave a store of the declared type,
    then methods were called on it and it was saved, in any order. *)
Inductive reachable : World → Prop :=
| reach_load root fs fs' raw s :
    load root fs = (fs', Ok raw) → typed raw = Some s →
    reachable (mkWorld s fs')
| reach_op op w :
    reachable w → reachable (mkWorld (apply_op (the_store w) op) (disk w))
| reach_save w :
    reachable w →
    reachable (mkWorld (the_store w) (save (the_store w) (disk w)).1).

(** The store keeps its document where [load] looks for it. *)
Definition located (self : Store Doc) : Prop :=
  meta_dir self = meta_dir_of (root self)
  ∧ meta_file self = meta_file_of (root self).

(** A metadata file of the declared type that lacks the country [cn]. *)
Definition us_doc : Doc := {[ py "us" := {[ py "food" := [py "snacks"] ]} ]}.

Definition us_meta : FS :=
  {[ meta_file_of sample_root := File (JsonText (to_json us_doc));
     meta_dir_of sample_root := Dir; sample_root := Dir; [] := Dir ]}.

(** [Path.is_dir]. *)
Definition is_dir (fs : FS) (p : Path) : bool :=
  match fs !! p with Some Dir => true | _ => false end.

(** The document as [load] leaves it: the country [cn] is added when it is
    missing. *)
Definition ensure_cn (d : Doc) : Doc :=
  if bool_decide (is_Some (d !! py "cn")) then d else <[py "cn" := ∅]> d.

(** A metadata file of the declared type that lists one secondary
    category twice. *)
Definition dup_doc : Doc :=
  {[ py "cn" := {[ py "food" := [py "snacks"; py "snacks"] ]} ]}.

Definition dup_meta : FS :=
  {[ meta_file_of sample_root := File (JsonText (to_json dup_doc));
     meta_dir_of sample_root := Dir; sample_root := Dir; [] := Dir ]}.

(** The store [load] returns for [dup_meta], and that store after
    [add_cat2("cn", "food", "snacks")]. *)
Definition dup_store : Store Doc := sample_store (ensure_cn dup_doc).

Definition dup_added : Store Doc :=
  add_cat2 (py "cn") (py "food") (py "snacks") dup_store.

(** The metadata file a first [load] writes under an empty root. *)
Definition fresh_doc : Doc := {[ py "cn" := ∅ ]}.

Definition fresh_meta : FS :=
  {[ meta_file_of sample_root := File (JsonText (to_json fresh_doc));
     meta_dir_of sample_root := Dir; sample_root := Dir; [] := Dir ]}.

(** The triple is in the document. *)
Definition in_taxonomy (d : Doc) (country cat1 cat2 : pystr) : Prop :=
  ∃ m l, d !! country = Some m ∧ m !! cat1 = Some l ∧ cat2 ∈ l.

(** The file [cmd_gen] writes. *)
Definition gen_path (self : Store Doc) (country cat1 cat2 name : pystr) : Path :=
  target_dir self country cat1 cat2 ++ [slugify_filename name ++ py ".yaml"].

(** The end-to-end scenario: five runs of the program on an empty root.
    [now] is the reading of the clock. *)
Definition two_lines : pystr := py "line1" ++ [10] ++ py "line2".

Definition e2e_run (now : pystr) : FS * res unit :=
  (main now sample_root (CmdAdd (py "cn") None None);;
   main now sample_root (CmdAdd (py "cn") (Some (py "food")) None);;
   main now sample_root
     (CmdAdd (py "cn") (Some (py "food")) (Some (py "snacks")));;
   main now sample_root (CmdSync None);;
   main now sample_root
     (CmdGen (py "cn") (py "food") (py "snacks") (py "Spicy Chips!") two_lines
        false))
    empty_root.

(** The text of the stub the scenario writes. *)
Definition expected_stub (now : pystr) : pystr :=
  join [10] [
    py "# data-records.net product stub";
    py "# generated_at: " ++ now;
    py "# path: cn/food/snacks/Spicy-Chips!.yaml";
    [];
    py "product:";
    py "  name: " ++ [34] ++ py "Spicy Chips!" ++ [34];
    py "  description: |";
    py "    line1";
    py "    line2"
  ] ++ [10].

(** A hexadecimal digit. *)
Definition is_hex (c : N) : bool :=
  ((48 <=? c) && (c <=? 57)) || ((97 <=? c) && (c <=? 102))
  || ((65 <=? c) && (c <=? 70)).

(** What the schema checks on one asset: the three fields are given, the
    hash has 64 characters and the URI starts with the asset domain. *)
Definition asset_valid (a : AssetInput) : Prop :=
  is_Some (role a)
  ∧ (∃ h, hash_sha256 a = Some h ∧ length h = 64%nat)
  ∧ (∃ u, uri a = Some u ∧ (py "https://assets.data-records.net/") `prefix_of` u).

(** An asset with an empty role and a hash of sixty-four letters z. *)
Definition odd_asset : AssetInput :=
  mkAssetInput (Some []) (Some (replicate 64 122))
    (Some (py "https://assets.data-records.net/x")).

(** The text [generate_record_yaml] writes for a validated record. *)
Definition record_text (record_json : ValidRecord → pystr) (r : ValidRecord)
  : pystr :=
  py "# Data Records Canonical Entry" ++ [10]
    ++ py "# ID: " ++ rec_id r ++ [10] ++ record_json r.

(** Stand-ins for the library functions of the engine, exact on the
    inputs of the examples: ASCII digits and letters, one timestamp. *)
Definition ascii_decimal (c : N) : bool := (48 <=? c) && (c <=? 57).
Definition ascii_alnum (c : N) : bool :=
  ascii_decimal c || ((65 <=? c) && (c <=? 90)) || ((97 <=? c) && (c <=? 122)).
Definition one_timestamp (s : pystr) : bool :=
  bool_decide (s = py "2024-01-01T00:00:00+00:00").
Definition id_only_json (r : ValidRecord) : pystr := rec_id r.

(** Two payloads for the same product, with different identifiers. *)
Definition chips_subject : gmap pystr pystr :=
  {[ py "brand" := py "Acme"; py "name" := py "Chips" ]}.

Definition chips_record (id : pystr) : RecordInput :=
  mkRecordInput (Some id) (Some (py "2024-01-01T00:00:00Z"))
    (Some chips_subject) (Some []) None.

Definition chips_valid (id : pystr) : ValidRecord :=
  mkValidRecord id (py "2024-01-01T00:00:00Z") chips_subject []
    (py "Data-Records Asset Custodian").

Definition out_dir : Path := sample_root ++ [py "out"].


(** The names a method adds can be encoded. *)
Definition op_encodable (op : store_op) : Prop :=
  match op with
  | OpAddCountry c => str_encodable c = true
  | OpAddCat1 c cat1 => str_encodable c = true ∧ str_encodable cat1 = true
  | OpAddCat2 c cat1 cat2 =>
      str_encodable c = true ∧ str_encodable cat1 = true
      ∧ str_encodable cat2 = true
  | _ => True
  end.

(** * Proofs *)

(** ** The path sanitiser *)

Example slugify_spicy : slugify_filename (py "Spicy Chips!") = py "Spicy-Chips!".
Proof. reflexivity. Qed.

Example slugify_mixed :
  slugify_filename (py "  a  <b>__c--.  ") = py "a-b-c".
Proof. reflexivity. Qed.

Section StripFacts.
Variable P : N → bool.

Lemma lstrip_suffix s : ∃ pre, s = pre ++ lstrip P s.
Proof.
  induction s as [|c r [pre IH]]; [by exists []|]. simpl.
  destruct (P c); [|by exists []].
  exists (c :: pre). simpl. by f_equal.
Qed.

Lemma lstrip_hd s : hd_free P (lstrip P s).
Proof.
  induction s as [|c r IH]; [done|]. simpl.
  destruct (P c) eqn:E; [done|]. simpl. done.
Qed.

Lemma lstrip_id s : hd_free P s → lstrip P s = s.
Proof. destruct s as [|c r]; [done|]. simpl. by intros ->. Qed.

Lemma lstrip_app a c b :
  P c = false → lstrip P (a ++ c :: b) = lstrip P a ++ c :: b.
Proof.
  intros Hc. induction a as [|x a IH]; simpl; [by rewrite Hc|].
  destruct (P x); done.
Qed.

Lemma rstrip_prefix s : ∃ post, s = rstrip P s ++ post.
Proof.
  destruct (lstrip_suffix (reverse s)) as [pre E].
  exists (reverse pre). unfold rstrip.
  rewrite <- reverse_app, <- E. by rewrite reverse_involutive.
Qed.

Lemma rstrip_last s : hd_free P (reverse (rstrip P s)).
Proof. unfold rstrip. rewrite reverse_involutive. apply lstrip_hd. Qed.

Lemma rstrip_hd s : hd_free P s → hd_free P (rstrip P s).
Proof.
  destruct s as [|c r]; [done|]. simpl. intros Hc. unfold rstrip.
  rewrite reverse_cons, lstrip_app by done.
  rewrite reverse_app. simpl. done.
Qed.

Lemma rstrip_id s : hd_free P (reverse s) → rstrip P s = s.
Proof.
  intros H. unfold rstrip. rewrite lstrip_id by done.
  apply reverse_involutive.
Qed.

Lemma strip_id s : hd_free P s → hd_free P (reverse s) → strip P s = s.
Proof.
  intros H1 H2. unfold strip. rewrite lstrip_id by done. by apply rstrip_id.
Qed.

Lemma strip_infix s : ∃ pre post, s = pre ++ strip P s ++ post.
Proof.
  destruct (lstrip_suffix s) as [pre E].
  destruct (rstrip_prefix (lstrip P s)) as [post E'].
  exists pre, post. unfold strip. by rewrite <- E', <- E.
Qed.

Lemma strip_hd s : hd_free P (strip P s).
Proof. apply rstrip_hd, lstrip_hd. Qed.

Lemma strip_last s : hd_free P (reverse (strip P s)).
Proof. apply rstrip_last. Qed.

Lemma Forall_hd_free s : Forall (λ c, P c = false) s → hd_free P s.
Proof. by destruct 1. Qed.

Lemma adj_free_app_l a b : adj_free P (a ++ b) → adj_free P a.
Proof.
  induction a as [|c a IH]; [done|]. simpl. intros [H1 H2]. split; [|auto].
  intros Hc. specialize (H1 Hc). by destruct a.
Qed.

Lemma adj_free_app_r a b : adj_free P (a ++ b) → adj_free P b.
Proof. induction a as [|c a IH]; [done|]. simpl. intros [_ H]. auto. Qed.
End StripFacts.

Section ReSubFacts.
Variable P : N → bool.
Variable repl : pystr.

Lemma sub_runs_none k s :
  (1 ≤ k)%nat → Forall (λ c, P c = false) s → sub_runs P k repl [] s = s.
Proof.
  intros Hk. induction 1 as [|c r Hc _ IH]; simpl.
  - unfold flush. simpl. by destruct k; [lia|].
  - rewrite Hc, IH. unfold flush. simpl. by destruct k; [lia|].
Qed.

Lemma flush_one_Forall (Q : N → Prop) run :
  Forall Q repl → Forall Q (flush 1 repl run).
Proof. intros H. unfold flush. destruct run; simpl; [constructor|done]. Qed.

(** After the substitution of every run by [repl], only [repl] and the
    characters outside the class are left. *)
Lemma sub_runs_one_Forall (Q : N → Prop) run s :
  Forall Q repl → Forall (λ c, P c = false → Q c) s →
  Forall Q (sub_runs P 1 repl run s).
Proof.
  intros Hr Hs. revert run. induction Hs as [|c r Hc _ IH]; intros run; simpl.
  - by apply flush_one_Forall.
  - destruct (P c) eqn:E; [apply IH|].
    apply Forall_app. split; [by apply flush_one_Forall|].
    constructor; auto.
Qed.

Lemma sub_runs_Forall (Q : N → Prop) k run s :
  Forall Q repl → Forall Q run → Forall Q s →
  Forall Q (sub_runs P k repl run s).
Proof.
  intros Hr Hrun Hs. revert run Hrun.
  induction Hs as [|c r Hc _ IH]; intros run Hrun; simpl.
  - unfold flush. by destruct (_ <=? _)%nat.
  - destruct (P c).
    + apply IH, Forall_app. split; [done|by constructor].
    + apply Forall_app. split.
      * unfold flush. by destruct (_ <=? _)%nat.
      * constructor; [done|]. by apply IH.
Qed.
End ReSubFacts.

Section Collapse.
Variable P : N → bool.
Variable x : N.
Hypothesis Px : P x = true.

Lemma flush_two run :
  Forall (λ c, P c = true) run → run ≠ [] →
  ∃ y, flush 2 [x] run = [y] ∧ P y = true.
Proof.
  intros H Hne. destruct run as [|y [|z r]]; [done| |].
  - exists y. split; [done|]. by inversion H.
  - exists x. done.
Qed.

Lemma collapse_shape run s :
  Forall (λ c, P c = true) run →
  (run = [] → adj_free P (sub_runs P 2 [x] run s))
  ∧ (run ≠ [] → ∃ y t, sub_runs P 2 [x] run s = y :: t
                       ∧ P y = true ∧ hd_free P t ∧ adj_free P t).
Proof.
  revert run. induction s as [|c r IH]; intros run Hrun; simpl.
  - split; [by intros ->|]. intros Hne.
    destruct (flush_two run Hrun Hne) as (y & -> & Hy). by exists y, [].
  - destruct (P c) eqn:E.
    + assert (Forall (λ c, P c = true) (run ++ [c])) as Hrun'
        by (apply Forall_app; split; [done|by constructor]).
      destruct (IH _ Hrun') as [_ IH2].
      destruct IH2 as (y & t & -> & Hy & Ht & Ha); [by destruct run|].
      split; [|by exists y, t]. intros _. simpl. done.
    + destruct (IH [] ltac:(constructor)) as [IH1 _].
      specialize (IH1 eq_refl). split.
      * intros ->. simpl. split; [|done]. by rewrite E.
      * intros Hne. destruct (flush_two run Hrun Hne) as (y & -> & Hy).
        exists y, (c :: sub_runs P 2 [x] [] r). simpl.
        repeat split; try done. by rewrite E.
Qed.

Lemma collapse_adj_free s : adj_free P (sub_runs P 2 [x] [] s).
Proof. by apply (collapse_shape [] s). Qed.

Lemma collapse_id s :
  adj_free P s →
  sub_runs P 2 [x] [] s = s
  ∧ ∀ c, P c = true → hd_free P s → sub_runs P 2 [x] [c] s = c :: s.
Proof.
  induction s as [|y r IH]; simpl; [done|]. intros [H1 H2].
  destruct (IH H2) as [IHa IHb]. destruct (P y) eqn:E.
  - split; [|intros c _ ?; congruence]. simpl. apply IHb; auto.
  - split; [by rewrite IHa|]. intros c Hc _. simpl. by rewrite IHa.
Qed.
End Collapse.

Lemma clean_fallback : clean (py "unnamed-product").
Proof.
  unfold clean. split; [done|]. split; [compute_done|by vm_compute].
Qed.

Lemma Forall_infix {A} (Q : A → Prop) (pre s post : list A) :
  Forall Q (pre ++ s ++ post) → Forall Q s.
Proof. rewrite !Forall_app. tauto. Qed.

Lemma slugify_clean x : clean (slugify_filename x).
Proof.
  unfold slugify_filename.
  destruct (is_empty (strip is_space x)); [apply clean_fallback|].
  set (a := strip is_space x).
  set (b := sub_runs is_space 1 (py "-") [] a).
  set (c := filter (λ c, is_illegal c = false) b).
  set (d := sub_runs is_sep 2 (py "-") [] c).
  destruct (is_empty (strip is_edge d)) eqn:E; [apply clean_fallback|].
  assert (Forall (λ c, is_space c = false) b) as Hb.
  { apply sub_runs_one_Forall; [by repeat constructor|].
    apply Forall_forall. auto. }
  assert (Forall (λ c, is_space c = false ∧ is_illegal c = false) c) as Hc.
  { apply Forall_forall. intros y Hy. apply list_elem_of_filter in Hy as [? Hy].
    split; [|done]. by eapply Forall_forall in Hb. }
  assert (Forall (λ c, is_space c = false ∧ is_illegal c = false) d) as Hd.
  { apply sub_runs_Forall; [by repeat constructor|constructor|done]. }
  assert (adj_free is_sep d) as Ha by (by apply collapse_adj_free).
  destruct (strip_infix is_edge d) as (pre & post & Hs).
  repeat split.
  - by destruct (strip is_edge d).
  - rewrite Hs in Hd. by eapply Forall_infix.
  - rewrite Hs in Ha. by eapply adj_free_app_l, adj_free_app_r.
  - apply strip_hd.
  - apply strip_last.
Qed.

Lemma filter_all {A} (Q : A → Prop) `{!∀ a, Decision (Q a)} (l : list A) :
  Forall Q l → filter Q l = l.
Proof.
  induction 1 as [|a l Ha _ IH]; [done|].
  rewrite filter_cons_True by done. by f_equal.
Qed.

Lemma clean_fixed s : clean s → slugify_filename s = s.
Proof.
  intros (Hne & Hall & Hadj & Hhd & Hlast).
  assert (Forall (λ c, is_space c = false) s) as Hsp
    by (eapply Forall_impl; [exact Hall|]; by intros ? []).
  assert (Forall (λ c, is_illegal c = false) s) as Hil
    by (eapply Forall_impl; [exact Hall|]; by intros ? []).
  assert (is_empty s = false) as Hemp by (destruct s; [by destruct Hne|done]).
  unfold slugify_filename.
  rewrite strip_id; [| by apply Forall_hd_free
                     | by apply Forall_hd_free; apply Forall_reverse].
  rewrite Hemp, (sub_runs_none is_space); [|lia|done].
  rewrite filter_all by done.
  change (py "-") with [45].
  destruct (collapse_id is_sep 45 s Hadj) as [-> _].
  rewrite strip_id by done. by rewrite Hemp.
Qed.

(** C7: the sanitiser is idempotent,
    [slugify_filename (slugify_filename x) = slugify_filename x] for every
    string [x]. *)
Theorem slugify_idempotent (x : pystr) :
  slugify_filename (slugify_filename x) = slugify_filename x.
Proof. apply clean_fixed, slugify_clean. Qed.



(** ** The file system *)

Lemma prefixes_from_prefix q done todo :
  q ∈ prefixes_from done todo → q `prefix_of` done ++ todo.
Proof.
  revert done. induction todo as [|c t IH]; intros done; simpl.
  - intros ->%list_elem_of_singleton. by rewrite app_nil_r.
  - intros [->|H]%elem_of_cons; [by apply prefix_app_r|].
    apply IH in H. by rewrite <- app_assoc in H.
Qed.

Lemma prefixes_from_last done todo : done ++ todo ∈ prefixes_from done todo.
Proof.
  revert done. induction todo as [|c t IH]; intros done; simpl.
  - rewrite app_nil_r. by left.
  - right. specialize (IH (done ++ [c])). by rewrite <- app_assoc in IH.
Qed.

Lemma prefixes_from_same_length q p :
  q ∈ prefixes_from [] p → length q = length p → q = p.
Proof.
  intros H%prefixes_from_prefix Hl. simpl in H.
  by apply prefix_length_eq; [|lia].
Qed.

Lemma mkdir_parents_unfold done todo fs :
  mkdir_parents done todo fs =
    let next fs' :=
      match todo with
      | [] => (fs', Ok ())
      | c :: todo' => mkdir_parents (done ++ [c]) todo' fs'
      end in
    match fs !! done with
    | Some Dir => next fs
    | None => next (<[done := Dir]> fs)
    | Some (File _) =>
        (fs, Raise (OSError (if is_empty todo then FileExistsError
                             else NotADirectoryError) done))
    end.
Proof. by destruct todo. Qed.

Lemma mkdir_parents_mono done todo fs : fs ⊆ (mkdir_parents done todo fs).1.
Proof.
  revert done fs. induction todo as [|c t IH]; intros done fs;
    rewrite mkdir_parents_unfold; simpl.
  - destruct (fs !! done) as [[|?]|] eqn:E; simpl; try done.
    by apply insert_subseteq.
  - destruct (fs !! done) as [[|?]|] eqn:E; simpl.
    + apply IH.
    + done.
    + etrans; [by apply insert_subseteq|apply IH].
Qed.

Lemma mkdir_parents_ok done todo fs fs' :
  mkdir_parents done todo fs = (fs', Ok ()) →
  (∀ q, q ∈ prefixes_from done todo → fs' !! q = Some Dir)
  ∧ (∀ q, q ∉ prefixes_from done todo → fs' !! q = fs !! q).
Proof.
  revert done fs. induction todo as [|c t IH]; intros done fs;
    rewrite mkdir_parents_unfold; simpl.
  - destruct (fs !! done) as [[|?]|] eqn:E; intros ?; simplify_eq; split.
    + by intros q ->%list_elem_of_singleton.
    + done.
    + intros q ->%list_elem_of_singleton. by rewrite lookup_insert_eq.
    + intros q Hq. rewrite lookup_insert_ne; [done|]. intros ->. apply Hq. by left.
  - assert (∀ fs0, fs0 !! done = Some Dir →
              mkdir_parents (done ++ [c]) t fs0 = (fs', Ok ()) →
              (∀ q, q ∈ done :: prefixes_from (done ++ [c]) t → fs' !! q = Some Dir)
              ∧ (∀ q, q ∉ done :: prefixes_from (done ++ [c]) t → fs' !! q = fs0 !! q))
      as Hstep.
    { intros fs0 Hd Hm. destruct (IH _ _ Hm) as [H1 H2]. split.
      - intros q [->|Hq]%elem_of_cons; [|by apply H1].
        destruct (decide (done ∈ prefixes_from (done ++ [c]) t)) as [Hin|Hnin];
          [by apply H1|]. by rewrite H2.
      - intros q Hq. apply H2. intros ?. apply Hq. by right. }
    destruct (fs !! done) as [[|?]|] eqn:E; intros Hm; simplify_eq.
    + by apply Hstep.
    + destruct (Hstep _ (lookup_insert_eq _ _ _) Hm) as [H1 H2]. split; [done|].
      intros q Hq. rewrite H2 by done. rewrite lookup_insert_ne; [done|].
      intros ->. apply Hq. by left.
Qed.

Lemma mkdir_parents_noop done todo fs :
  (∀ q, q ∈ prefixes_from done todo → fs !! q = Some Dir) →
  mkdir_parents done todo fs = (fs, Ok ()).
Proof.
  revert done. induction todo as [|c t IH]; intros done H;
    rewrite mkdir_parents_unfold; simpl.
  - rewrite (H done); [done|]. by left.
  - rewrite (H done) by (by left). apply IH. intros q Hq. apply H. by right.
Qed.

Lemma mkdir_parents_total done todo fs :
  (∀ q t, q ∈ prefixes_from done todo → fs !! q ≠ Some (File t)) →
  ∃ fs', mkdir_parents done todo fs = (fs', Ok ()).
Proof.
  revert done fs. induction todo as [|c t IH]; intros done fs H;
    rewrite mkdir_parents_unfold; simpl.
  - destruct (fs !! done) as [[|x]|] eqn:E; eauto.
    exfalso. apply (H done x); [by left|done].
  - destruct (fs !! done) as [[|x]|] eqn:E.
    + apply IH. intros q t' Hq. apply H. by right.
    + exfalso. apply (H done x); [by left|done].
    + apply IH. intros q t' Hq.
      destruct (decide (q = done)) as [->|Hne];
        [by rewrite lookup_insert_eq|].
      rewrite lookup_insert_ne by done. apply H. by right.
Qed.

(** ** Joining paths *)

Lemma split_slash_plain (cur s : pystr) :
  47 ∉ s → split_slash cur s = [cur ++ s].
Proof.
  revert cur. induction s as [|c s IH]; intros cur H; simpl.
  - by rewrite app_nil_r.
  - apply not_elem_of_cons in H as [Hc Hs].
    destruct (N.eqb_spec c 47) as [->|_]; [done|].
    rewrite IH by done. by rewrite <- app_assoc.
Qed.

(** A key that is one segment is appended as it is. *)
Lemma joinpath_single (p : Path) (k : pystr) :
  k ≠ [] → k ≠ py "." → 47 ∉ k → joinpath p k = p ++ [k].
Proof.
  intros Hne Hdot Hs. unfold joinpath. destruct k as [|c k]; [done|].
  destruct (N.eqb_spec c 47) as [->|_]; [exfalso; apply Hs; by left|].
  unfold path_parts. rewrite split_slash_plain by done. simpl.
  by rewrite filter_cons_True, filter_nil.
Qed.

Lemma portable_name_single (k : pystr) :
  portable_name k = true → k ≠ [] ∧ k ≠ py "." ∧ 47 ∉ k.
Proof.
  unfold portable_name. rewrite !andb_true_iff, !negb_true_iff.
  intros [[[[H1 H2] _] H3] _]. split_and!.
  - by intros ->.
  - by apply bool_decide_eq_false in H2.
  - intros Hin. rewrite forallb_forall in H3.
    apply list_elem_of_In, H3 in Hin. done.
Qed.

Lemma joinpath_portable (p : Path) (k : pystr) :
  portable_name k = true → joinpath p k = p ++ [k].
Proof.
  intros (? & ? & ?)%portable_name_single. by apply joinpath_single.
Qed.

Lemma target_dir_portable (self : Store Doc) (c cat1 cat2 : pystr) :
  os_path (root self ++ [c; cat1; cat2]) = true →
  target_dir self c cat1 cat2 = root self ++ [c; cat1; cat2].
Proof.
  unfold os_path. rewrite andb_true_iff, forallb_app. cbn [forallb].
  rewrite !andb_true_iff. intros [(_ & Hc & H1 & H2 & _) _].
  unfold target_dir. rewrite !joinpath_portable by done.
  by rewrite <- !app_assoc.
Qed.

(** ** Loops in the monad *)

Lemma bind_unfold {S A B} (m : M S A) (k : A → M S B) s :
  (m ≫= k) s = match m s with
               | (s', Ok a) => k a s'
               | (s', Raise e) => (s', Raise e)
               end.
Proof. done. Qed.

Lemma bind_ret_r {S A} (m : M S A) s : (m ≫= mret) s = m s.
Proof. rewrite bind_unfold. by destruct (m s) as [? []]. Qed.

Lemma run_eta {S A} (m : S * res A) (r : res A) : m.2 = r → m = (m.1, r).
Proof. destruct m. simpl. by intros ->. Qed.

Lemma foldM_ext {S A B} (f g : B → A → M S B) b l s :
  (∀ b a s, f b a s = g b a s) → foldM f b l s = foldM g b l s.
Proof.
  intros H. revert b s. induction l as [|a l IH]; intros b s; [done|].
  simpl. rewrite !bind_unfold, H. destruct (g b a s) as [? []]; auto.
Qed.

Lemma foldM_app {S A B} (f : B → A → M S B) b l1 l2 s :
  foldM f b (l1 ++ l2) s = (foldM f b l1 ≫= λ b', foldM f b' l2) s.
Proof.
  revert b s. induction l1 as [|a l1 IH]; intros b s; [done|].
  simpl. rewrite !bind_unfold. destruct (f b a s) as [s' [b'|e]]; [|done].
  by rewrite IH, bind_unfold.
Qed.

Lemma foldM_bind {S A B C} (g : A → list C) (f : B → C → M S B) b l s :
  foldM (λ b a, foldM f b (g a)) b l s = foldM f b (l ≫= g) s.
Proof.
  revert b s. induction l as [|a l IH]; intros b s; [done|].
  simpl. rewrite foldM_app, !bind_unfold.
  destruct (foldM f b (g a) s) as [s' [b'|e]]; [|done]. apply IH.
Qed.

Lemma sync_dirs_flat self country fs :
  sync_dirs self country fs
  = foldM sync_step [] (triple_paths self country) fs.
Proof.
  unfold sync_dirs, triple_paths. fold (sync_countries self country).
  rewrite <- foldM_bind. apply foldM_ext. intros b c s.
  rewrite <- foldM_bind. apply foldM_ext. intros b' cat1 s'.
  rewrite <- foldM_bind. apply foldM_ext. intros b'' cat2 s''.
  simpl. by rewrite bind_ret_r.
Qed.

(** ** The directory synchroniser *)

Lemma sync_step_unfold created p fs :
  sync_step created p fs =
    match fs !! p with
    | Some _ => (fs, Ok created)
    | None =>
        match ensure_dir p fs with
        | (fs', Ok _) => (fs', Ok (created ++ [p]))
        | (fs', Raise e) => (fs', Raise e)
        end
    end.
Proof.
  unfold sync_step, path_exists. rewrite bind_unfold.
  destruct (fs !! p) as [x|] eqn:E.
  - rewrite bool_decide_eq_true_2 by eauto. done.
  - rewrite bool_decide_eq_false_2 by (by intros []). rewrite bind_unfold.
    by destruct (ensure_dir p fs) as [? [[]|]].
Qed.

Lemma ensure_dir_files p fs fs' q t :
  ensure_dir p fs = (fs', Ok ()) →
  fs' !! q = Some (File t) → fs !! q = Some (File t).
Proof.
  intros [H1 H2]%mkdir_parents_ok Hq.
  destruct (decide (q ∈ prefixes_from [] p)) as [Hin|Hnin].
  - rewrite (H1 q Hin) in Hq. done.
  - by rewrite <- (H2 q Hnin).
Qed.

Lemma sync_flat_mono L created fs : fs ⊆ (foldM sync_step created L fs).1.
Proof.
  revert created fs. induction L as [|p L IH]; intros created fs; [done|].
  simpl. rewrite bind_unfold, sync_step_unfold.
  destruct (fs !! p) as [x|] eqn:E; [apply IH|].
  pose proof (mkdir_parents_mono [] p fs) as Hm. unfold ensure_dir.
  destruct (mkdir_parents [] p fs) as [fs1 [[]|e]]; simpl in *; [|done].
  etrans; [exact Hm|apply IH].
Qed.

Lemma sync_flat_noop L created fs :
  (∀ p, p ∈ L → is_Some (fs !! p)) →
  foldM sync_step created L fs = (fs, Ok created).
Proof.
  induction L as [|p L IH]; intros H; [done|].
  simpl. rewrite bind_unfold, sync_step_unfold.
  destruct (H p) as [x ->]; [by left|]. apply IH. intros q Hq. apply H. by right.
Qed.

Lemma sync_flat_total L created fs :
  (∀ p q t, p ∈ L → q `prefix_of` p → q ≠ p → fs !! q ≠ Some (File t)) →
  ∃ fs' created', foldM sync_step created L fs = (fs', Ok created').
Proof.
  revert created fs. induction L as [|p L IH]; intros created fs H;
    [by exists fs, created|].
  simpl. rewrite bind_unfold, sync_step_unfold.
  destruct (fs !! p) as [x|] eqn:E.
  - apply IH. intros p' q t Hp'. apply H. by right.
  - destruct (mkdir_parents_total [] p fs) as [fs1 Hfs1].
    { intros q t Hq%prefixes_from_prefix. simpl in Hq.
      destruct (decide (q = p)) as [->|Hne]; [by rewrite E|].
      apply (H p); [by left|done|done]. }
    unfold ensure_dir. rewrite Hfs1. apply IH. intros p' q t Hp' Hq Hne Hf.
    eapply ensure_dir_files in Hf; [|exact Hfs1].
    revert Hf. apply (H p'); [by right|done|done].
Qed.

Lemma sync_flat_ok n L :
  (∀ p, p ∈ L → length p = n) →
  ∀ created fs fs' created',
    foldM sync_step created L fs = (fs', Ok created') →
    ∃ new, created' = created ++ new
      ∧ NoDup new
      ∧ new `sublist_of` L
      ∧ (∀ p, p ∈ new ↔ p ∈ L ∧ fs !! p = None)
      ∧ (∀ p, p ∈ new → fs' !! p = Some Dir)
      ∧ (∀ p, p ∈ L → is_Some (fs' !! p)).
Proof.
  induction L as [|p L IH]; intros Hlen created fs fs' created' Hrun.
  - simpl in Hrun. unfold mret, M_ret in Hrun. simplify_eq. exists [].
    rewrite app_nil_r. split_and!; try done.
    + constructor.
    + intros p. split; [by intros ?%elem_of_nil|by intros [?%elem_of_nil _]].
    + by intros p ?%elem_of_nil.
    + by intros p ?%elem_of_nil.
  - simpl in Hrun. rewrite bind_unfold, sync_step_unfold in Hrun.
    assert (∀ q, q ∈ L → length q = n) as HlenL
      by (intros q Hq; apply Hlen; by right).
    pose proof (sync_flat_mono L) as Hmono.
    destruct (fs !! p) as [x|] eqn:E.
    + specialize (Hmono created fs). rewrite Hrun in Hmono. simpl in Hmono.
      destruct (IH HlenL _ _ _ _ Hrun) as (new & -> & Hnd & Hsub & Hin & Hdir & Hex).
      exists new. split_and!; try done.
      * by apply sublist_cons.
      * intros q. rewrite Hin, elem_of_cons. split; [tauto|].
        intros [[->|?] Hq]; [congruence|done].
      * intros q [->|?]%elem_of_cons; [|by apply Hex].
        exists x. by eapply lookup_weaken.
    + destruct (ensure_dir p fs) as [fs1 [[]|e]] eqn:Ee; [|done].
      specialize (Hmono (created ++ [p]) fs1). rewrite Hrun in Hmono.
      simpl in Hmono.
      destruct (mkdir_parents_ok _ _ _ _ Ee) as [Hp1 Hp2].
      assert (fs1 !! p = Some Dir) as Hp
        by (apply Hp1, (prefixes_from_last [] p)).
      destruct (IH HlenL _ _ _ _ Hrun) as (new & -> & Hnd & Hsub & Hin & Hdir & Hex).
      exists (p :: new). rewrite <- app_assoc. split_and!; try done.
      * constructor; [|done]. rewrite Hin. intros [_ ?]. congruence.
      * by apply sublist_skip.
      * intros q. rewrite !elem_of_cons, Hin. split.
        -- intros [->|[Hq Hn]]; [by auto|]. split; [by right|].
           destruct (fs !! q) as [y|] eqn:Eq; [|done].
           pose proof (mkdir_parents_mono [] p fs) as Hm.
           unfold ensure_dir in Ee. rewrite Ee in Hm. simpl in Hm.
           eapply lookup_weaken in Eq; [|exact Hm]. congruence.
        -- intros [[->|Hq] Hn]; [by left|].
           destruct (decide (q = p)) as [->|Hne]; [by left|].
           right. split; [done|].
           rewrite Hp2; [done|]. intros Hpre.
           apply prefixes_from_same_length in Hpre.
           ++ done.
           ++ rewrite (Hlen p) by (by left). by apply HlenL.
      * intros q [->|Hq]%elem_of_cons; [|by apply Hdir].
        by eapply lookup_weaken.
      * intros q [->|Hq]%elem_of_cons; [|by apply Hex].
        exists Dir. by eapply lookup_weaken.
Qed.

Lemma sync_flat_exists L created fs fs' created' :
  foldM sync_step created L fs = (fs', Ok created') →
  ∀ p, p ∈ L → is_Some (fs' !! p).
Proof.
  revert created fs. induction L as [|p L IH]; intros created fs Hrun q Hq;
    [by apply elem_of_nil in Hq|].
  simpl in Hrun. rewrite bind_unfold, sync_step_unfold in Hrun.
  pose proof (sync_flat_mono L) as Hmono.
  apply elem_of_cons in Hq as [->|Hq].
  - destruct (fs !! p) as [x|] eqn:E.
    + specialize (Hmono created fs). rewrite Hrun in Hmono.
      exists x. by eapply lookup_weaken.
    + destruct (ensure_dir p fs) as [fs1 [[]|e]] eqn:Ee; [|done].
      specialize (Hmono (created ++ [p]) fs1). rewrite Hrun in Hmono.
      destruct (mkdir_parents_ok _ _ _ _ Ee) as [Hp1 _].
      exists Dir. eapply lookup_weaken; [|exact Hmono].
      apply Hp1, (prefixes_from_last [] p).
  - destruct (fs !! p) as [x|]; [by eapply IH|].
    destruct (ensure_dir p fs) as [fs1 [[]|e]]; [|done]. by eapply IH.
Qed.

Lemma elem_of_triples (self : Store Doc) (country : option pystr)
    (c cat1 cat2 : pystr) :
  (c, cat1, cat2) ∈ triples self country
  ↔ c ∈ sync_countries self country ∧ cat1 ∈ cat1_list self c
    ∧ cat2 ∈ cat2_list self c cat1.
Proof.
  unfold triples. rewrite list_elem_of_bind. split.
  - intros (c' & H & Hc). apply list_elem_of_bind in H as (k & H & Hk).
    apply list_elem_of_bind in H as (x & H & Hx).
    apply list_elem_of_singleton in H. by simplify_eq.
  - intros (Hc & Hk & Hx). exists c. split; [|done].
    apply list_elem_of_bind. exists cat1. split; [|done].
    apply list_elem_of_bind. exists cat2. split; [|done].
    by apply list_elem_of_singleton.
Qed.

Lemma elem_of_triple_paths (self : Store Doc) (country : option pystr) (p : Path) :
  p ∈ triple_paths self country
  ↔ ∃ c cat1 cat2, (c, cat1, cat2) ∈ triples self country
                   ∧ p = target_dir self c cat1 cat2.
Proof.
  unfold triple_paths. rewrite list_elem_of_bind. split.
  - intros (c & H & Hc). apply list_elem_of_bind in H as (k & H & Hk).
    apply list_elem_of_bind in H as (x & H & Hx).
    apply list_elem_of_singleton in H. exists c, k, x.
    split; [by apply elem_of_triples|done].
  - intros (c & k & x & (Hc & Hk & Hx)%elem_of_triples & ->).
    exists c. split; [|done].
    apply list_elem_of_bind. exists k. split; [|done].
    apply list_elem_of_bind. exists x. split; [|done].
    by apply list_elem_of_singleton.
Qed.

Lemma names_ok_triple (self : Store Doc) (country : option pystr)
    (c cat1 cat2 : pystr) :
  names_ok self country = true → (c, cat1, cat2) ∈ triples self country →
  os_path (root self ++ [c; cat1; cat2]) = true.
Proof.
  unfold names_ok. rewrite forallb_forall. intros H Hin.
  by apply list_elem_of_In, H in Hin.
Qed.

Lemma triple_paths_portable (self : Store Doc) (country : option pystr) (p : Path) :
  names_ok self country = true →
  p ∈ triple_paths self country
  ↔ ∃ c cat1 cat2, (c, cat1, cat2) ∈ triples self country
                   ∧ p = root self ++ [c; cat1; cat2].
Proof.
  intros Hok. rewrite elem_of_triple_paths.
  split; intros (c & k & x & Hin & ->); exists c, k, x; (split; [done|]).
  - apply target_dir_portable. by eapply names_ok_triple.
  - symmetry. apply target_dir_portable. by eapply names_ok_triple.
Qed.

Lemma triple_paths_length self country p :
  names_ok self country = true →
  p ∈ triple_paths self country → length p = (length (root self) + 3)%nat.
Proof.
  intros Hok (c & k & x & _ & ->)%triple_paths_portable; [|done].
  by rewrite length_app.
Qed.




(** ** Sorting strings *)

Lemma str_leb_refl a : str_leb a a = true.
Proof. induction a as [|x a IH]; [done|]. simpl. by rewrite N.ltb_irrefl. Qed.

Lemma str_leb_total a b : str_leb a b = true ∨ str_leb b a = true.
Proof.
  revert b. induction a as [|x a IH]; intros [|y b]; simpl; auto.
  destruct (N.ltb_spec x y), (N.ltb_spec y x); auto; lia.
Qed.

Lemma str_leb_trans a b c :
  str_leb a b = true → str_leb b c = true → str_leb a c = true.
Proof.
  revert b c. induction a as [|x a IH]; intros [|y b] [|z c]; simpl; try done.
  destruct (N.ltb_spec x y), (N.ltb_spec y x), (N.ltb_spec y z),
    (N.ltb_spec z y), (N.ltb_spec x z), (N.ltb_spec z x);
    try done; try lia.
  apply IH.
Qed.

Lemma str_leb_antisym a b :
  str_leb a b = true → str_leb b a = true → a = b.
Proof.
  revert b. induction a as [|x a IH]; intros [|y b]; simpl; try done.
  destruct (N.ltb_spec x y), (N.ltb_spec y x); try done; try lia.
  intros. f_equal; [lia|auto].
Qed.

#[global] Instance str_le_refl : Reflexive str_le.
Proof. intros a. apply str_leb_refl. Qed.
#[global] Instance str_le_total : Total str_le.
Proof. intros a b. apply str_leb_total. Qed.
#[global] Instance str_le_trans : Transitive str_le.
Proof. intros a b c. apply str_leb_trans. Qed.
#[global] Instance str_le_antisym : AntiSymm (=) str_le.
Proof. intros a b. apply str_leb_antisym. Qed.

Lemma sorted_perm l : sorted l ≡ₚ l.
Proof. apply merge_sort_Permutation. Qed.

Lemma elem_of_sorted x l : x ∈ sorted l ↔ x ∈ l.
Proof. by rewrite sorted_perm. Qed.

Lemma sorted_Sorted l : Sorted str_le (sorted l).
Proof. apply (Sorted_merge_sort str_le). Qed.

Lemma sorted_NoDup l : NoDup (sorted l) ↔ NoDup l.
Proof. by rewrite sorted_perm. Qed.

(** A list that is in order already is left as it is. *)
Lemma sorted_id l : Sorted str_le l → sorted l = l.
Proof.
  intros H. apply (Sorted_unique str_le); [apply sorted_Sorted|done|].
  apply sorted_perm.
Qed.

Lemma filter_none {A} (Q : A → Prop) `{!∀ a, Decision (Q a)} (l : list A) :
  Forall (λ a, ¬ Q a) l → filter Q l = [].
Proof.
  induction 1 as [|a l Ha _ IH]; [done|]. by rewrite filter_cons_False.
Qed.

Lemma occurrences_perm x (l k : list pystr) :
  l ≡ₚ k → occurrences x l = occurrences x k.
Proof. intros H. unfold occurrences. by rewrite H. Qed.

Lemma occurrences_NoDup x (l : list pystr) :
  NoDup l → x ∈ l → occurrences x l = 1%nat.
Proof.
  unfold occurrences. induction 1 as [|y l Hy Hnd IH]; [by intros ?%elem_of_nil|].
  intros [->|Hx]%elem_of_cons.
  - rewrite filter_cons_True by done. simpl. f_equal.
    rewrite filter_none; [done|].
    apply Forall_forall. by intros z Hz ->.
  - rewrite filter_cons_False; [by apply IH|]. by intros ->.
Qed.

Lemma occurrences_not_in x (l : list pystr) : x ∉ l → occurrences x l = 0%nat.
Proof.
  intros H. unfold occurrences.
  rewrite filter_none; [done|].
  apply Forall_forall. by intros z Hz ->.
Qed.

Lemma occurrences_app x (l k : list pystr) :
  occurrences x (l ++ k) = (occurrences x l + occurrences x k)%nat.
Proof. unfold occurrences. by rewrite filter_app, length_app. Qed.

(** ** Documents and JSON *)

Lemma traverse_fmap {A B} (f : A → option B) (g : B → A) (m : gmap pystr B) :
  (∀ b, f (g b) = Some b) → traverse f (g <$> m) = Some m.
Proof.
  intros Hfg. unfold traverse. rewrite decide_True.
  - f_equal. apply map_eq. intros i. rewrite lookup_omap, lookup_fmap.
    destruct (m !! i); simpl; [apply Hfg|done].
  - intros i a. rewrite lookup_fmap.
    destruct (m !! i); intros; simplify_eq/=. rewrite Hfg. eauto.
Qed.

Lemma traverse_lookup {A B} (f : A → option B) (m : gmap pystr A) m' i :
  traverse f m = Some m' → is_Some (m' !! i) ↔ is_Some (m !! i).
Proof.
  unfold traverse. case_decide as H; [|done]. intros [= <-].
  rewrite lookup_omap. destruct (m !! i) as [a|] eqn:E; simpl; [|done].
  split; [eauto|]. intros _. by apply (H i a).
Qed.

Lemma list_of_json_to l : list_of_json (list_to_json l) = Some l.
Proof. simpl. by apply mapM_fmap_Some. Qed.

Lemma cat1s_of_json_to m : cat1s_of_json (cat1s_to_json m) = Some m.
Proof. simpl. apply traverse_fmap, list_of_json_to. Qed.

Lemma of_json_to_json (d : Doc) : of_json (to_json d) = Some d.
Proof. simpl. apply traverse_fmap, cat1s_of_json_to. Qed.

Lemma of_json_lookup (j : json) (d : Doc) (i : pystr) :
  of_json j = Some d →
  ∃ m, j = JObj m ∧ (is_Some (d !! i) ↔ is_Some (m !! i)).
Proof.
  destruct j as [| | | | |m]; try done. simpl. intros H.
  exists m. split; [done|]. by eapply traverse_lookup.
Qed.

Lemma contains_cn_to_json (d : Doc) :
  contains_cn (to_json d) = Ok (bool_decide (is_Some (d !! py "cn"))).
Proof.
  simpl. f_equal. apply bool_decide_ext. by rewrite lookup_fmap, fmap_is_Some.
Qed.

Lemma setitem_cn_to_json (d : Doc) :
  setitem_cn (to_json d) = Ok (to_json (<[py "cn" := ∅]> d)).
Proof.
  simpl. unfold to_json. rewrite fmap_insert. unfold cat1s_to_json at 2.
  by rewrite fmap_empty.
Qed.

Lemma json_obj_encodable (m : gmap pystr json) :
  json_encodable (JObj m) = true
  ↔ map_Forall (λ k v, str_encodable k = true ∧ json_encodable v = true) m.
Proof.
  cbn [json_encodable].
  apply (map_fold_weak_ind
           (λ r m, r = true
                   ↔ map_Forall (λ k v, str_encodable k = true
                                        ∧ json_encodable v = true) m)).
  - split; [intros _; apply map_Forall_empty|done].
  - intros i x m' r Hi IH. rewrite map_Forall_insert by done.
    rewrite !andb_true_iff, IH. tauto.
Qed.

Lemma list_to_json_encodable (l : list pystr) :
  json_encodable (list_to_json l) = true
  ↔ Forall (λ x, str_encodable x = true) l.
Proof.
  unfold list_to_json. cbn [json_encodable].
  rewrite forallb_forall, Forall_forall. split.
  - intros H x Hx. apply (H (JStr x)).
    apply list_elem_of_In, list_elem_of_fmap. by exists x.
  - intros H j Hj. apply list_elem_of_In, list_elem_of_fmap in Hj as (x & -> & Hx).
    by apply H.
Qed.

Lemma to_json_encodable (d : Doc) :
  json_encodable (to_json d) = true ↔ doc_encodable d.
Proof.
  unfold to_json, doc_encodable. rewrite json_obj_encodable, map_Forall_fmap.
  unfold map_Forall. split.
  - intros H c m Hm. destruct (H c m Hm) as [Hc Hj]. split; [done|].
    unfold compose, cat1s_to_json in Hj.
    rewrite json_obj_encodable, map_Forall_fmap in Hj.
    intros k l Hl. destruct (Hj k l Hl) as [Hk Hlst]. split; [done|].
    by apply list_to_json_encodable.
  - intros H c m Hm. destruct (H c m Hm) as [Hc Hj]. split; [done|].
    unfold compose, cat1s_to_json.
    rewrite json_obj_encodable, map_Forall_fmap.
    intros k l Hl. destruct (Hj k l Hl) as [Hk Hlst]. split; [done|].
    by apply list_to_json_encodable.
Qed.

(** ** Loading and saving *)

Lemma write_text_utf8_unfold (p : Path) (t : text) (fs : FS) :
  fs !! p ≠ Some Dir → fs !! parent p = Some Dir →
  write_text_utf8 p t fs
  = if text_encodable t then (<[p := File t]> fs, Ok ())
    else (<[p := File (Plain [])]> fs, Raise UnicodeEncodeError).
Proof.
  intros Hp Hpar. unfold write_text_utf8.
  destruct (text_encodable t); [|rewrite bind_unfold]; unfold write_text;
    rewrite Hpar; by destruct (fs !! p) as [[|t0]|].
Qed.

(** The default document is ASCII. *)
Lemma write_default_raw (p : Path) :
  write_text_utf8 p (json_dumps default_raw)
  = write_text p (json_dumps default_raw).
Proof.
  unfold write_text_utf8.
  by replace (text_encodable (json_dumps default_raw)) with true
    by (vm_compute; reflexivity).
Qed.

Lemma load_unfold root fs :
  load root fs =
    match ensure_dir (meta_dir_of root) fs with
    | (fs1, Raise e) => (fs1, Raise e)
    | (fs1, Ok _) =>
        match fs1 !! meta_file_of root with
        | None =>
            match write_text (meta_file_of root) (json_dumps default_raw) fs1 with
            | (fs2, Ok _) => load_finish root default_raw fs2
            | (fs2, Raise e) => (fs2, Raise e)
            end
        | Some Dir =>
            (fs1, Raise (OSError IsADirectoryError (meta_file_of root)))
        | Some (File t) =>
            match json_loads t with
            | Ok raw => load_finish root raw fs1
            | Raise e => (fs1, Raise e)
            end
        end
    end.
Proof.
  unfold load. fold (meta_dir_of root). fold (meta_file_of root).
  rewrite bind_unfold.
  destruct (ensure_dir (meta_dir_of root) fs) as [fs1 [[]|e]]; [|done].
  rewrite bind_unfold. unfold path_exists at 1.
  assert (∀ raw fs2,
    (has ← lift (contains_cn raw);
     raw0 ← (if has : bool then mret raw else lift (setitem_cn raw));
     mret (mkStore root (meta_dir_of root) (meta_file_of root) raw0)) fs2
    = load_finish root raw fs2) as Hfin.
  { intros raw fs2. unfold load_finish. rewrite bind_unfold. unfold lift at 1.
    destruct (contains_cn raw) as [[]|e]; [done| |done].
    rewrite bind_unfold. unfold lift. by destruct (setitem_cn raw). }
  destruct (fs1 !! meta_file_of root) as [[|t]|] eqn:E.
  - rewrite bool_decide_eq_true_2 by eauto.
    rewrite !bind_unfold. unfold read_text. by rewrite E.
  - rewrite bool_decide_eq_true_2 by eauto.
    rewrite !bind_unfold. unfold read_text. rewrite E. unfold lift at 1.
    destruct (json_loads t) as [raw|e]; [apply Hfin|done].
  - rewrite bool_decide_eq_false_2 by (by intros []).
    rewrite !bind_unfold. fold default_raw. rewrite write_default_raw.
    destruct (write_text _ _ fs1) as [fs2 [[]|e]]; [|done].
    unfold mret at 1, M_ret at 1. apply Hfin.
Qed.

Lemma meta_file_not_prefix root :
  meta_file_of root ∉ prefixes_from [] (meta_dir_of root).
Proof.
  intros H%prefixes_from_prefix%prefix_length. simpl in H.
  unfold meta_file_of in H. rewrite length_app in H. simpl in H. lia.
Qed.

Lemma ensure_meta_dir root fs fs1 :
  ensure_dir (meta_dir_of root) fs = (fs1, Ok ()) →
  fs1 !! meta_dir_of root = Some Dir
  ∧ fs1 !! meta_file_of root = fs !! meta_file_of root.
Proof.
  intros [H1 H2]%mkdir_parents_ok. split.
  - apply H1, (prefixes_from_last [] (meta_dir_of root)).
  - apply H2, meta_file_not_prefix.
Qed.

Lemma parent_meta_file root : parent (meta_file_of root) = meta_dir_of root.
Proof. apply removelast_last. Qed.

Lemma default_raw_to_json : default_raw = to_json {[ py "cn" := ∅ ]}.
Proof.
  unfold to_json. rewrite map_fmap_singleton. unfold cat1s_to_json.
  by rewrite fmap_empty.
Qed.

Lemma mkdir_parents_noop_b done todo fs :
  forallb (is_dir fs) (prefixes_from done todo) = true →
  mkdir_parents done todo fs = (fs, Ok ()).
Proof.
  intros H. apply mkdir_parents_noop. intros q Hq.
  rewrite forallb_forall in H. apply list_elem_of_In, H in Hq.
  unfold is_dir in Hq. by destruct (fs !! q) as [[]|].
Qed.

(** C5, as stated, fails: a metadata file that is valid JSON is loaded
    whatever its structure. Here the value of the country is a number, no
    document of the declared type has this JSON value, and [load] returns a
    store that holds it. *)
Lemma load_accepts_wrong_structure :
  of_json number_raw = None
  ∧ load sample_root number_meta
    = (number_meta,
       Ok (mkStore sample_root (meta_dir_of sample_root)
             (meta_file_of sample_root) number_raw)).
Proof.
  split; [vm_compute; reflexivity|].
  rewrite load_unfold. unfold ensure_dir.
  rewrite mkdir_parents_noop_b by (vm_compute; reflexivity).
  unfold number_meta at 1. rewrite lookup_insert_eq. reflexivity.
Qed.

(** C5, amended: [load] works on [root/_meta/categories.json], whose
    directory it creates first. If the file is absent, the store holds the
    document with the single country [cn] and no category, and this
    document is on disk when [load] returns. If the path is a directory or
    the file holds text that is not JSON, [load] raises and returns no
    store. If it holds a JSON object, [load] returns it as the data of the store,
    with the key [cn] added when missing, whatever the values are. *)
Theorem load_behaviour (root : Path) (fs fs1 : FS) :
  ensure_dir (meta_dir_of root) fs = (fs1, Ok ()) →
  let store raw :=
    mkStore root (root ++ [py "_meta"])
      (root ++ [py "_meta"] ++ [py "categories.json"]) raw in
  match fs !! (root ++ [py "_meta"] ++ [py "categories.json"]) with
  | None =>
      load root fs
      = (<[meta_file_of root := File (JsonText (to_json {[ py "cn" := ∅ ]}))]> fs1,
         Ok (store (to_json {[ py "cn" := ∅ ]})))
  | Some Dir =>
      load root fs
      = (fs1, Raise (OSError IsADirectoryError (meta_file_of root)))
  | Some (File (Plain t)) => load root fs = (fs1, Raise JSONDecodeError)
  | Some (File (JsonText (JObj m))) =>
      load root fs
      = (fs1, Ok (store (JObj (if bool_decide (is_Some (m !! py "cn")) then m
                               else <[py "cn" := JObj ∅]> m))))
  | _ => True
  end.
Proof.
  intros He store. rewrite load_unfold, He.
  destruct (ensure_meta_dir _ _ _ He) as [Hd Hf].
  replace (root ++ [py "_meta"] ++ [py "categories.json"])
    with (meta_file_of root) by (unfold meta_file_of, meta_dir_of; by rewrite <- app_assoc).
  rewrite Hf.
  destruct (fs !! meta_file_of root) as [[|[t|j]]|] eqn:E; try done.
  - destruct j as [| | | | |m]; try done. simpl.
    unfold load_finish, store, meta_file_of, meta_dir_of. simpl.
    rewrite <- !app_assoc. simpl.
    by destruct (bool_decide (is_Some (m !! py "cn"))).
  - unfold write_text. rewrite Hf, parent_meta_file, Hd.
    rewrite <- default_raw_to_json. unfold json_dumps, load_finish. simpl.
    rewrite bool_decide_eq_true_2.
    + unfold store, meta_file_of, meta_dir_of. by rewrite <- !app_assoc.
    + rewrite lookup_singleton_eq. eauto.
Qed.

Lemma load_behaviour_witness :
  ∃ fs1,
    ensure_dir (meta_dir_of sample_root) empty_root = (fs1, Ok ())
    ∧ load sample_root empty_root
      = (<[meta_file_of sample_root := File (JsonText (to_json {[ py "cn" := ∅ ]}))]> fs1,
         Ok (mkStore sample_root (sample_root ++ [py "_meta"])
               (sample_root ++ [py "_meta"] ++ [py "categories.json"])
               (to_json {[ py "cn" := ∅ ]}))).
Proof.
  assert ((ensure_dir (meta_dir_of sample_root) empty_root).2 = Ok ()) as He
    by (vm_compute; reflexivity).
  apply run_eta in He.
  pose proof (load_behaviour sample_root empty_root _ He) as Hl.
  cbv zeta in Hl.
  replace (empty_root !! (sample_root ++ [py "_meta"] ++ [py "categories.json"]))
    with (@None node) in Hl by (vm_compute; reflexivity).
  eexists. split; [exact He|exact Hl].
Defined.

(** ** The methods of the store *)

Lemma lookup_total_Some {A} `{!Inhabited A} (m : gmap pystr A) i a :
  m !! i = Some a → m !!! i = a.
Proof. intros H. by rewrite lookup_total_alt, H. Qed.

Lemma add_country_lookup (c k : pystr) (s : Store Doc) :
  data (add_country c s) !! k
  = if decide (k = c) then Some (default ∅ (data s !! c)) else data s !! k.
Proof.
  unfold add_country. case_bool_decide as H; simpl.
  - destruct H as [m Hm]. destruct (decide (k = c)) as [->|]; [|done].
    by rewrite Hm.
  - apply eq_None_not_Some in H. rewrite lookup_insert.
    destruct (decide (k = c)) as [->|Hne].
    + by rewrite decide_True, H.
    + by rewrite decide_False.
Qed.

Lemma add_cat1_lookup (c cat1 k : pystr) (s : Store Doc) :
  data (add_cat1 c cat1 s) !! k
  = if decide (k = c) then
      let m := default ∅ (data s !! c) in
      Some (if decide (is_Some (m !! cat1)) then m else <[cat1 := []]> m)
    else data s !! k.
Proof.
  unfold add_cat1.
  pose proof (add_country_lookup c c s) as Hc. rewrite decide_True in Hc by done.
  rewrite (lookup_total_Some _ _ _ Hc). simpl.
  set (m := default ∅ (data s !! c)) in *.
  case_bool_decide as H; simpl.
  - rewrite add_country_lookup. destruct (decide (k = c)) as [->|]; [|done].
    by rewrite decide_True.
  - rewrite lookup_insert. destruct (decide (k = c)) as [->|Hne].
    + by rewrite decide_True, decide_False.
    + by rewrite decide_False, add_country_lookup, decide_False.
Qed.

Lemma add_cat2_lookup (c cat1 cat2 k : pystr) (s : Store Doc) :
  data (add_cat2 c cat1 cat2 s) !! k
  = if decide (k = c) then
      let m := default ∅ (data s !! c) in
      let lst := default [] (m !! cat1) in
      Some (<[cat1 := if decide (cat2 ∈ lst) then lst
                      else sorted (lst ++ [cat2])]> m)
    else data s !! k.
Proof.
  unfold add_cat2.
  pose proof (add_cat1_lookup c cat1 c s) as Hc. rewrite decide_True in Hc by done.
  simpl in Hc. rewrite (lookup_total_Some _ _ _ Hc). simpl.
  set (m := default ∅ (data s !! c)) in *.
  assert ((if decide (is_Some (m !! cat1)) then m else <[cat1:=[]]> m) !!! cat1
          = default [] (m !! cat1)) as Hl.
  { case_decide as H.
    - destruct H as [l Hl]. by rewrite (lookup_total_Some _ _ _ Hl), Hl.
    - rewrite lookup_total_insert_eq. by destruct (m !! cat1); [exfalso; eauto|]. }
  rewrite Hl. case_bool_decide as Hin; simpl.
  - rewrite add_cat1_lookup. destruct (decide (k = c)) as [->|]; [|done].
    simpl. fold m. rewrite (decide_True _ _ Hin). f_equal.
    destruct (m !! cat1) as [l|] eqn:El; simpl in *.
    + by rewrite insert_id.
    + by apply elem_of_nil in Hin.
  - rewrite lookup_insert. destruct (decide (k = c)) as [->|Hne].
    + rewrite decide_True by done. rewrite (decide_False _ _ Hin). f_equal.
      case_decide; [done|]. by rewrite insert_insert_eq.
    + by rewrite decide_False, add_cat1_lookup, decide_False.
Qed.

Lemma remove_cat1_lookup (c cat1 k : pystr) (s : Store Doc) :
  data (remove_cat1 c cat1 s).2 !! k
  = if decide (k = c) then delete cat1 <$> data s !! c else data s !! k.
Proof.
  unfold remove_cat1. destruct (data s !! c) as [m|] eqn:E; simpl.
  - destruct (bool_decide (m = ∅) || negb (bool_decide (is_Some (m !! cat1))))
      eqn:B; simpl.
    + destruct (decide (k = c)) as [->|]; [|done]. rewrite E. f_equal.
      apply orb_true_iff in B as [B|B].
      * apply bool_decide_eq_true in B. subst. by rewrite delete_empty.
      * apply negb_true_iff, bool_decide_eq_false, eq_None_not_Some in B.
        by rewrite delete_id.
    + rewrite lookup_insert. destruct (decide (k = c)) as [->|Hne].
      * by rewrite decide_True.
      * by rewrite decide_False.
  - destruct (decide (k = c)) as [->|]; [|done]. by rewrite E.
Qed.

Lemma remove_first_not_in (x : pystr) (l : list pystr) :
  x ∉ l → remove_first x l = l.
Proof.
  induction l as [|y l IH]; [done|]. intros [? ?]%not_elem_of_cons. simpl.
  rewrite bool_decide_eq_false_2 by done. f_equal. auto.
Qed.

Lemma remove_cat2_lookup (c cat1 cat2 k : pystr) (s : Store Doc) :
  data (remove_cat2 c cat1 cat2 s).2 !! k
  = if decide (k = c) then
      (λ m, match m !! cat1 with
            | Some lst => <[cat1 := remove_first cat2 lst]> m
            | None => m
            end) <$> data s !! c
    else data s !! k.
Proof.
  unfold remove_cat2. destruct (data s !! c) as [m|] eqn:E; simpl.
  - destruct (m !! cat1) as [lst|] eqn:El; simpl.
    + destruct (is_empty lst) eqn:Hemp; simpl.
      * destruct (decide (k = c)) as [->|]; [|done]. rewrite E.
        destruct lst; [|done]. simpl. by rewrite insert_id.
      * case_bool_decide as Hin; simpl.
        -- rewrite lookup_insert. destruct (decide (k = c)) as [->|Hne].
           ++ by rewrite decide_True.
           ++ by rewrite decide_False.
        -- destruct (decide (k = c)) as [->|]; [|done]. rewrite E.
           by rewrite remove_first_not_in, insert_id.
    + destruct (decide (k = c)) as [->|]; [|done]. by rewrite E.
  - rewrite lookup_empty. simpl. by destruct (decide (k = c)) as [->|].
Qed.

(** No method removes a country. *)
Lemma apply_op_keeps_countries (op : store_op) (s : Store Doc) (k : pystr) :
  is_Some (data s !! k) → is_Some (data (apply_op s op) !! k).
Proof.
  intros Hk. destruct op; cbn [apply_op].
  - rewrite add_country_lookup. case_decide; eauto.
  - rewrite add_cat1_lookup. case_decide; eauto.
  - rewrite add_cat2_lookup. case_decide; eauto.
  - rewrite remove_cat1_lookup. case_decide; [|done]. subst.
    by apply fmap_is_Some.
  - rewrite remove_cat2_lookup. case_decide; [|done]. subst.
    by apply fmap_is_Some.
Qed.

Lemma add_country_fields (c : pystr) (s : Store Doc) :
  root (add_country c s) = root s
  ∧ meta_dir (add_country c s) = meta_dir s
  ∧ meta_file (add_country c s) = meta_file s.
Proof. unfold add_country. by case_bool_decide. Qed.

Lemma add_cat1_fields (c cat1 : pystr) (s : Store Doc) :
  root (add_cat1 c cat1 s) = root s
  ∧ meta_dir (add_cat1 c cat1 s) = meta_dir s
  ∧ meta_file (add_cat1 c cat1 s) = meta_file s.
Proof.
  unfold add_cat1. case_bool_decide; cbn [root meta_dir meta_file with_data];
    apply add_country_fields.
Qed.

Lemma add_cat2_fields (c cat1 cat2 : pystr) (s : Store Doc) :
  root (add_cat2 c cat1 cat2 s) = root s
  ∧ meta_dir (add_cat2 c cat1 cat2 s) = meta_dir s
  ∧ meta_file (add_cat2 c cat1 cat2 s) = meta_file s.
Proof.
  unfold add_cat2. case_bool_decide; cbn [root meta_dir meta_file with_data];
    apply add_cat1_fields.
Qed.

Lemma apply_op_fields (op : store_op) (s : Store Doc) :
  root (apply_op s op) = root s
  ∧ meta_dir (apply_op s op) = meta_dir s
  ∧ meta_file (apply_op s op) = meta_file s.
Proof.
  destruct op; cbn [apply_op].
  - apply add_country_fields.
  - apply add_cat1_fields.
  - apply add_cat2_fields.
  - unfold remove_cat1. destruct (data s !! country); [|done].
    by destruct (_ || _).
  - unfold remove_cat2. destruct (_ !! cat1) as [lst|]; [|done].
    destruct (is_empty lst); [done|]. by case_bool_decide.
Qed.

Lemma load_finish_ok rt raw0 fs0 fs' raw :
  load_finish rt raw0 fs0 = (fs', Ok raw) →
  fs' = fs0
  ∧ root raw = rt ∧ meta_dir raw = meta_dir_of rt
  ∧ meta_file raw = meta_file_of rt
  ∧ ∀ m, data raw = JObj m → is_Some (m !! py "cn").
Proof.
  unfold load_finish. destruct (contains_cn raw0) as [[]|e] eqn:Ec; [| |done].
  - intros [= <- <-]. split_and!; try done. simpl. intros m ->.
    simpl in Ec. injection Ec as Ec. by apply bool_decide_eq_true in Ec.
  - destruct (setitem_cn raw0) as [raw'|e] eqn:Es; [|done].
    intros [= <- <-]. split_and!; try done. simpl. intros m ->.
    destruct raw0; simplify_eq/=. rewrite lookup_insert_eq. eauto.
Qed.

Lemma load_ok rt fs fs' raw :
  load rt fs = (fs', Ok raw) →
  root raw = rt ∧ meta_dir raw = meta_dir_of rt
  ∧ meta_file raw = meta_file_of rt
  ∧ (∀ m, data raw = JObj m → is_Some (m !! py "cn"))
  ∧ (∀ q, q ∈ prefixes_from [] (meta_dir_of rt) → fs' !! q = Some Dir)
  ∧ ∃ t, fs' !! meta_file_of rt = Some (File t).
Proof.
  rewrite load_unfold.
  destruct (ensure_dir (meta_dir_of rt) fs) as [fs1 [[]|e]] eqn:He; [|done].
  destruct (mkdir_parents_ok _ _ _ _ He) as [Hpre _].
  destruct (ensure_meta_dir _ _ _ He) as [Hd _].
  destruct (fs1 !! meta_file_of rt) as [[|t]|] eqn:E; [done| |].
  - destruct (json_loads t) as [raw0|e]; [|done].
    intros (-> & ? & ? & ? & ?)%load_finish_ok. split_and!; eauto.
  - unfold write_text. rewrite E, parent_meta_file, Hd.
    intros (-> & ? & ? & ? & ?)%load_finish_ok. split_and!; try done.
    + intros q Hq. rewrite lookup_insert_ne; [by apply Hpre|].
      intros <-. by apply meta_file_not_prefix in Hq.
    + rewrite lookup_insert_eq. eauto.
Qed.

Lemma typed_ok (raw : Store json) (s : Store Doc) :
  typed raw = Some s →
  root s = root raw ∧ meta_dir s = meta_dir raw ∧ meta_file s = meta_file raw
  ∧ of_json (data raw) = Some (data s).
Proof.
  unfold typed. destruct (of_json (data raw)) as [d|]; [|done].
  simpl. by intros [= <-].
Qed.

(** What every reachable state satisfies. *)
Lemma reachable_inv (w : World) :
  reachable w →
  located (the_store w) ∧ is_Some (data (the_store w) !! py "cn")
  ∧ (∀ q, q ∈ prefixes_from [] (meta_dir (the_store w)) → disk w !! q = Some Dir)
  ∧ ∃ t, disk w !! meta_file (the_store w) = Some (File t).
Proof.
  induction 1 as [rt fs fs' raw s Hl Ht|op w _ IH|w _ IH]; simpl.
  - apply load_ok in Hl as (Hr & Hd & Hf & Hcn & Hpre & Hfile).
    apply typed_ok in Ht as (Hr' & Hd' & Hf' & Hj).
    unfold located. rewrite Hr', Hd', Hf', Hr, Hd, Hf. split_and!; try done.
    destruct (of_json_lookup _ _ (py "cn") Hj) as (m & Hm & ->). by apply Hcn.
  - destruct IH as ([Hd Hf] & Hcn & Hpre & Hfile).
    destruct (apply_op_fields op (the_store w)) as (Hr' & Hd' & Hf').
    unfold located. rewrite Hr', Hd', Hf'. split_and!; try done.
    by apply apply_op_keeps_countries.
  - destruct IH as ([Hd Hf] & Hcn & Hpre & [t Hfile]).
    assert (∃ t', (save (the_store w) (disk w)).1
                  = <[meta_file (the_store w) := File t']> (disk w))
      as [t' ->].
    { unfold save. rewrite write_text_utf8_unfold.
      - destruct (text_encodable _); eauto.
      - by rewrite Hfile.
      - rewrite Hf, parent_meta_file, <- Hd.
        apply Hpre, (prefixes_from_last [] (meta_dir (the_store w))). }
    split_and!; try done.
    + intros q Hq. rewrite lookup_insert_ne; [by apply Hpre|].
      intros <-. rewrite Hd, Hf in Hq. by apply meta_file_not_prefix in Hq.
    + rewrite lookup_insert_eq. eauto.
Qed.

Lemma elem_of_keys {A} (m : gmap pystr A) (k : pystr) :
  k ∈ keys m ↔ is_Some (m !! k).
Proof.
  unfold keys. rewrite list_elem_of_fmap. split.
  - intros ([k' a] & -> & H%elem_of_map_to_list). eauto.
  - intros [a Ha]. exists (k, a). split; [done|]. by apply elem_of_map_to_list.
Qed.

Lemma elem_of_countries (s : Store Doc) (k : pystr) :
  k ∈ countries s ↔ is_Some (data s !! k).
Proof. unfold countries. by rewrite elem_of_sorted, elem_of_keys. Qed.

Lemma forallb_is_dir (fs : FS) (l : list Path) :
  forallb (is_dir fs) l = true → ∀ q, q ∈ l → fs !! q = Some Dir.
Proof.
  intros H q Hq. rewrite forallb_forall in H. apply list_elem_of_In, H in Hq.
  unfold is_dir in Hq. by destruct (fs !! q) as [[]|].
Qed.

(** Loading a metadata file that holds a document of the declared type. *)
Lemma load_existing_doc (rt : Path) (fs : FS) (d : Doc) :
  (∀ q, q ∈ prefixes_from [] (meta_dir_of rt) → fs !! q = Some Dir) →
  fs !! meta_file_of rt = Some (File (JsonText (to_json d))) →
  load rt fs
  = (fs, Ok (mkStore rt (meta_dir_of rt) (meta_file_of rt)
               (to_json (ensure_cn d)))).
Proof.
  intros Hpre Hfile. rewrite load_unfold. unfold ensure_dir.
  rewrite mkdir_parents_noop by done. rewrite Hfile. simpl json_loads.
  unfold load_finish. rewrite contains_cn_to_json. unfold ensure_cn.
  destruct (bool_decide (is_Some (d !! py "cn"))); [done|].
  by rewrite setitem_cn_to_json.
Qed.

Lemma typed_to_json (rt md mf : Path) (d : Doc) :
  typed (mkStore rt md mf (to_json d)) = Some (mkStore rt md mf d).
Proof. unfold typed. simpl data. by rewrite of_json_to_json. Qed.





(** ** The invariant of the lists of secondary categories *)

Lemma list_ok_nil : list_ok [].
Proof. split; constructor. Qed.

Lemma list_ok_add (l : list pystr) (x : pystr) :
  list_ok l → x ∉ l → list_ok (sorted (l ++ [x])).
Proof.
  intros [_ Hnd] Hx. split; [apply sorted_Sorted|].
  apply sorted_NoDup, NoDup_app. split_and!; [done| |apply NoDup_singleton].
  by intros y Hy ->%list_elem_of_singleton.
Qed.

Lemma remove_first_sublist (x : pystr) (l : list pystr) :
  remove_first x l `sublist_of` l.
Proof.
  induction l as [|y l IH]; [done|]. simpl. case_bool_decide.
  - by apply sublist_cons.
  - by apply sublist_skip.
Qed.

Lemma list_ok_remove (l : list pystr) (x : pystr) :
  list_ok l → list_ok (remove_first x l).
Proof.
  intros [Hs Hnd]. split; [|by eapply sublist_NoDup, remove_first_sublist].
  apply Sorted_StronglySorted in Hs; [|apply _].
  apply StronglySorted_Sorted.
  induction Hs as [|y l Hs IH Hall]; [constructor|]. simpl.
  apply NoDup_cons in Hnd as [_ Hnd]. case_bool_decide; [done|].
  constructor; [by apply IH|].
  eapply Forall_forall. intros z Hz. eapply Forall_forall in Hall; [done|].
  eapply elem_of_sublist; [exact Hz|apply remove_first_sublist].
Qed.

Lemma doc_ok_default_lookup (d : Doc) (c cat1 : pystr) :
  doc_ok d → list_ok (default [] (default ∅ (d !! c) !! cat1)).
Proof.
  intros H. destruct (d !! c) as [m|] eqn:E; simpl.
  - destruct (m !! cat1) as [l|] eqn:El; simpl; [by eapply H|apply list_ok_nil].
  - rewrite lookup_empty. apply list_ok_nil.
Qed.

Lemma doc_ok_default (d : Doc) (c cat1 : pystr) (l : list pystr) :
  doc_ok d → default ∅ (d !! c) !! cat1 = Some l → list_ok l.
Proof.
  intros H Hl. pose proof (doc_ok_default_lookup d c cat1 H) as Hd.
  by rewrite Hl in Hd.
Qed.

(** Every method keeps the lists in order and free of duplicates. *)
Lemma doc_ok_apply_op (op : store_op) (s : Store Doc) :
  doc_ok (data s) → doc_ok (data (apply_op s op)).
Proof.
  intros H. destruct op; cbn [apply_op]; intros k m c1 l.
  - rewrite add_country_lookup. case_decide; [|by apply H].
    intros [= <-] Hl. by eapply doc_ok_default.
  - rewrite add_cat1_lookup. case_decide; [|by apply H].
    cbv zeta. intros [= <-]. case_decide; [by eapply doc_ok_default|].
    rewrite lookup_insert. case_decide; [intros [= <-]; apply list_ok_nil|].
    by eapply doc_ok_default.
  - rewrite add_cat2_lookup. case_decide; [|by apply H].
    cbv zeta. intros [= <-]. rewrite lookup_insert.
    case_decide; [|by eapply doc_ok_default]. intros [= <-].
    case_decide; [by apply doc_ok_default_lookup|].
    apply list_ok_add; [by apply doc_ok_default_lookup|done].
  - rewrite remove_cat1_lookup. case_decide; [|by apply H]. subst.
    destruct (data s !! country) as [m0|] eqn:E; [|done].
    intros [= <-] [_ Hl]%lookup_delete_Some. by eapply H.
  - rewrite remove_cat2_lookup. case_decide; [|by apply H]. subst.
    destruct (data s !! country) as [m0|] eqn:E; [|done]. simpl.
    intros [= <-]. destruct (m0 !! cat1) as [lst|] eqn:El; [|by eapply H].
    rewrite lookup_insert. case_decide; [|by eapply H].
    intros [= <-]. apply list_ok_remove. by eapply H.
Qed.

Lemma doc_ok_fresh : doc_ok {[ py "cn" := ∅ ]}.
Proof.
  intros c m cat1 l [<- <-]%lookup_singleton_Some. by rewrite lookup_empty.
Qed.

Lemma save_unfold (w : World) :
  reachable w →
  let s := the_store w in
  save s (disk w)
  = if json_encodable (to_json (data s))
    then (<[meta_file_of (root s) := File (JsonText (to_json (data s)))]>
            (disk w), Ok ())
    else (<[meta_file_of (root s) := File (Plain [])]> (disk w),
          Raise UnicodeEncodeError).
Proof.
  intros ([Hd Hf] & Hcn & Hpre & [t Hfile])%reachable_inv s.
  fold s in Hd, Hf, Hcn, Hpre, Hfile. unfold save.
  rewrite write_text_utf8_unfold.
  - by rewrite Hf.
  - by rewrite Hfile.
  - rewrite Hf, parent_meta_file, <- Hd.
    apply Hpre, (prefixes_from_last [] (meta_dir s)).
Qed.

(** Saving a reachable store whose document can be encoded and loading it
    again gives the store back. *)
Lemma save_then_load (w : World) :
  reachable w → doc_encodable (data (the_store w)) →
  let s := the_store w in
  let fs2 := <[meta_file_of (root s) := File (JsonText (to_json (data s)))]> (disk w) in
  save s (disk w) = (fs2, Ok ())
  ∧ load (root s) fs2 = (fs2, Ok (with_data (to_json (data s)) s))
  ∧ typed (with_data (to_json (data s)) s) = Some s.
Proof.
  intros Hr Henc%to_json_encodable. pose proof (save_unfold w Hr) as Hsave.
  revert Hr Hsave.
  intros ([Hd Hf] & Hcn & Hpre & [t Hfile])%reachable_inv Hsave s fs2.
  cbv zeta in Hsave. rewrite Henc in Hsave.
  fold s in Hd, Hf, Hcn, Hpre, Hfile, Hsave. split_and!.
  - exact Hsave.
  - rewrite (load_existing_doc _ _ (data s)).
    + unfold ensure_cn. rewrite bool_decide_eq_true_2 by done.
      unfold with_data. by rewrite Hd, Hf.
    + intros q Hq. unfold fs2. rewrite lookup_insert_ne.
      * apply Hpre. by rewrite Hd.
      * intros <-. by apply meta_file_not_prefix in Hq.
    + unfold fs2. apply lookup_insert_eq.
  - destruct s. apply typed_to_json.
Qed.

(** Saving a reachable store whose document cannot be encoded raises and
    leaves the metadata file empty, and a [load] right after fails. *)
Lemma save_unencodable (w : World) :
  reachable w → ¬ doc_encodable (data (the_store w)) →
  let s := the_store w in
  let fs2 := <[meta_file_of (root s) := File (Plain [])]> (disk w) in
  save s (disk w) = (fs2, Raise UnicodeEncodeError)
  ∧ load (root s) fs2 = (fs2, Raise JSONDecodeError).
Proof.
  intros Hr Henc. pose proof (save_unfold w Hr) as Hsave.
  revert Hr Hsave.
  intros ([Hd Hf] & Hcn & Hpre & [t Hfile])%reachable_inv Hsave s fs2.
  cbv zeta in Hsave.
  destruct (json_encodable (to_json (data (the_store w)))) eqn:E;
    [by apply to_json_encodable in E|].
  fold s in Hd, Hf, Hcn, Hpre, Hfile, Hsave. split; [exact Hsave|].
  rewrite load_unfold. unfold ensure_dir. rewrite mkdir_parents_noop.
  - unfold fs2. by rewrite lookup_insert_eq.
  - intros q Hq. unfold fs2. rewrite lookup_insert_ne.
    + apply Hpre. by rewrite Hd.
    + intros <-. by apply meta_file_not_prefix in Hq.
Qed.

Lemma doc_ok_ensure_cn (d : Doc) : doc_ok d → doc_ok (ensure_cn d).
Proof.
  intros H. unfold ensure_cn. case_bool_decide; [done|].
  intros c m cat1 l. rewrite lookup_insert. case_decide; [|by apply H].
  intros [= <-]. by rewrite lookup_empty.
Qed.

(** A metadata file of the declared type, in a tree whose directories
    exist, is a state [load] reaches. *)
Lemma reachable_sample (d : Doc) (fs : FS) :
  forallb (is_dir fs) (prefixes_from [] (meta_dir_of sample_root)) = true →
  fs !! meta_file_of sample_root = Some (File (JsonText (to_json d))) →
  reachable (mkWorld (sample_store (ensure_cn d)) fs).
Proof.
  intros Hdirs Hfile.
  apply (reach_load sample_root fs fs
           (mkStore sample_root (meta_dir_of sample_root)
              (meta_file_of sample_root) (to_json (ensure_cn d)))).
  - apply load_existing_doc; [by apply forallb_is_dir|done].
  - apply typed_to_json.
Qed.

(** C8, as stated, fails: [load] takes the lists of the metadata file as
    they are. When the file lists [snacks] twice under [cn/food],
    [add_cat2] finds it present and changes nothing, and after [save] and
    a fresh [load] the listing holds it twice. *)
Lemma reload_keeps_duplicates :
  reachable (mkWorld dup_store dup_meta)
  ∧ ∃ fs2 raw,
      save dup_added dup_meta = (fs2, Ok ())
      ∧ load sample_root fs2 = (fs2, Ok raw)
      ∧ typed raw = Some dup_added
      ∧ cat2_list dup_added (py "cn") (py "food") = [py "snacks"; py "snacks"].
Proof.
  assert (reachable (mkWorld dup_store dup_meta)) as Hr.
  { apply reachable_sample; [vm_compute; reflexivity|].
    unfold dup_meta. apply lookup_insert_eq. }
  split; [exact Hr|].
  apply (reach_op (OpAddCat2 (py "cn") (py "food") (py "snacks"))) in Hr.
  apply save_then_load in Hr as (Hs & Hl & Ht);
    [|apply to_json_encodable; vm_compute; reflexivity].
  cbn [the_store disk apply_op] in Hs, Hl, Ht. fold dup_added in Hs, Hl, Ht.
  assert (root dup_added = sample_root) as Hroot
    by apply (add_cat2_fields _ _ _ dup_store).
  rewrite Hroot in Hs, Hl.
  eexists _, _. split_and!; [exact Hs|exact Hl|exact Ht|].
  vm_compute. reflexivity.
Qed.

Lemma cat2_list_add_cat2 (s : Store Doc) (c cat1 cat2 : pystr) :
  cat2_list (add_cat2 c cat1 cat2 s) c cat1
  = let lst := default [] (default ∅ (data s !! c) !! cat1) in
    sorted (if decide (cat2 ∈ lst) then lst else sorted (lst ++ [cat2])).
Proof.
  unfold cat2_list. rewrite add_cat2_lookup, decide_True by done.
  cbv zeta. simpl. by rewrite lookup_insert_eq.
Qed.

Lemma occurrences_in (x : pystr) (l : list pystr) :
  x ∈ l → (1 ≤ occurrences x l)%nat.
Proof.
  unfold occurrences. induction l as [|y l IH]; [by intros ?%elem_of_nil|].
  intros [->|Hx]%elem_of_cons.
  - rewrite filter_cons_True by done. simpl. lia.
  - specialize (IH Hx). destruct (decide (y = x)) as [->|Hne].
    + rewrite filter_cons_True by done. simpl. lia.
    + by rewrite filter_cons_False.
Qed.

(** C8, amended: take a state reachable from [load] and a country [c].
    After [add_cat2(c, "food", "snacks")]: when no name of the document
    holds a lone surrogate, [save] succeeds and a fresh [load] from the
    same root returns the same store; otherwise, as when [c] holds one,
    [save] raises [UnicodeEncodeError], the metadata file is left empty and
    the next [load] fails. [cat2_list(c, "food")] of the store is in order,
    and it holds [snacks] exactly once when it held it at most once before.
    When the lists of the document are in order and free of duplicates,
    they still are, also after any further method. *)
Theorem add_cat2_survives_reload (w : World) (c : pystr) :
  reachable w →
  let s1 := add_cat2 c (py "food") (py "snacks") (the_store w) in
  (doc_encodable (data s1) →
     ∃ fs2 raw,
       save s1 (disk w) = (fs2, Ok ())
       ∧ load (root s1) fs2 = (fs2, Ok raw)
       ∧ typed raw = Some s1)
  ∧ (¬ doc_encodable (data s1) →
     ∃ fs2,
       save s1 (disk w) = (fs2, Raise UnicodeEncodeError)
       ∧ fs2 !! meta_file s1 = Some (File (Plain []))
       ∧ load (root s1) fs2 = (fs2, Raise JSONDecodeError))
  ∧ (str_encodable c = false → ¬ doc_encodable (data s1))
  ∧ ((occurrences (py "snacks") (cat2_list (the_store w) c (py "food")) ≤ 1)%nat →
     occurrences (py "snacks") (cat2_list s1 c (py "food")) = 1%nat)
  ∧ Sorted str_le (cat2_list s1 c (py "food"))
  ∧ (doc_ok (data (the_store w)) →
     doc_ok (data s1) ∧ ∀ op, doc_ok (data (apply_op s1 op))).
Proof.
  intros Hr s1.
  pose proof (reach_op (OpAddCat2 c (py "food") (py "snacks")) _ Hr) as Hr1.
  cbn [apply_op the_store disk] in Hr1. fold s1 in Hr1.
  split_and!.
  - intros Henc. destruct (save_then_load _ Hr1 Henc) as (Hs & Hl & Ht). eauto.
  - intros Henc. destruct (save_unencodable _ Hr1 Henc) as (Hs & Hl).
    cbn [the_store disk] in Hs, Hl. eexists. split_and!; [exact Hs| |exact Hl].
    destruct (reachable_inv _ Hr1) as ([_ Hf] & _). cbn [the_store] in Hf.
    rewrite Hf. apply lookup_insert_eq.
  - intros Hc Henc.
    pose proof (add_cat2_lookup c (py "food") (py "snacks") c (the_store w))
      as Hl. rewrite decide_True in Hl by done. fold s1 in Hl.
    destruct (Henc _ _ Hl) as [Hc' _]. congruence.
  - unfold s1. rewrite cat2_list_add_cat2. cbv zeta. unfold cat2_list.
    set (lst := default [] (default ∅ (data (the_store w) !! c) !! py "food")).
    rewrite !(occurrences_perm _ _ _ (sorted_perm _)). intros Hle.
    case_decide as Hin.
    + apply occurrences_in in Hin. lia.
    + rewrite (occurrences_perm _ _ _ (sorted_perm _)), occurrences_app.
      by rewrite occurrences_not_in.
  - unfold cat2_list. apply sorted_Sorted.
  - intros Hok.
    assert (doc_ok (data s1)) as Hok1
      by apply (doc_ok_apply_op (OpAddCat2 c (py "food") (py "snacks")) _ Hok).
    split; [done|]. intros op. by apply doc_ok_apply_op.
Qed.

Lemma add_cat2_survives_reload_witness :
  let s1 := add_cat2 (py "cn") (py "food") (py "snacks")
              (sample_store (ensure_cn fresh_doc)) in
  (∃ fs2 raw,
     save s1 fresh_meta = (fs2, Ok ())
     ∧ load sample_root fs2 = (fs2, Ok raw)
     ∧ typed raw = Some s1)
  ∧ occurrences (py "snacks") (cat2_list s1 (py "cn") (py "food")) = 1%nat
  ∧ cat2_list s1 (py "cn") (py "food") = [py "snacks"].
Proof.
  assert (reachable (mkWorld (sample_store (ensure_cn fresh_doc)) fresh_meta))
    as Hr.
  { apply reachable_sample; [vm_compute; reflexivity|].
    unfold fresh_meta. apply lookup_insert_eq. }
  destruct (add_cat2_survives_reload _ (py "cn") Hr)
    as (Hsave & _ & _ & Hocc & _).
  split_and!.
  - apply Hsave. apply to_json_encodable. vm_compute. reflexivity.
  - apply Hocc. vm_compute. lia.
  - vm_compute. reflexivity.
Defined.

(** ** The record generator of [dr_manager] *)

Lemma on_disk_unfold {A} (m : M FS A) (w : World) :
  on_disk m w = ((mkWorld (the_store w) (m (disk w)).1), (m (disk w)).2).
Proof. unfold on_disk. by destruct (m (disk w)). Qed.

(** The name of a stub is one path segment. *)
Lemma joinpath_fname (p : Path) (name : pystr) :
  joinpath p (slugify_filename name ++ py ".yaml")
  = p ++ [slugify_filename name ++ py ".yaml"].
Proof.
  destruct (slugify_clean name) as (Hne & Hall & _).
  apply joinpath_single.
  - by destruct (slugify_filename name).
  - intros H%(f_equal length). rewrite length_app in H. simpl in H. lia.
  - intros [Hin|Hin]%elem_of_app.
    + eapply Forall_forall in Hall; [|exact Hin]. by destruct Hall.
    + vm_compute in Hin. by repeat (apply elem_of_cons in Hin as [?|Hin];
        [done|]); apply elem_of_nil in Hin.
Qed.

Lemma cmd_gen_unfold now country cat1 cat2 name desc overwrite (w : World) :
  cmd_gen now country cat1 cat2 name desc overwrite w =
    let store := the_store w in
    let out_path := gen_path store country cat1 cat2 name in
    if negb (bool_decide (is_Some (data store !! country))) then
      (w, Raise (SystemExit (msg_no_country country)))
    else if negb (bool_decide (is_Some ((data store !!! country) !! cat1))) then
      (w, Raise (SystemExit (msg_no_cat1 country cat1)))
    else if negb (bool_decide
                    (cat2 ∈ default [] ((data store !!! country) !! cat1))) then
      (w, Raise (SystemExit (msg_no_cat2 country cat1 cat2)))
    else
      match sync_dirs store (Some country) (disk w) with
      | (fs1, Raise e) => (mkWorld store fs1, Raise e)
      | (fs1, Ok _) =>
          match ensure_dir (target_dir store country cat1 cat2) fs1 with
          | (fs2, Raise e) => (mkWorld store fs2, Raise e)
          | (fs2, Ok _) =>
              if bool_decide (is_Some (fs2 !! out_path)) && negb overwrite then
                (mkWorld store fs2, Raise (SystemExit (msg_exists out_path)))
              else
                let text := render_yaml_template now name desc country cat1 cat2 in
                if str_encodable
                     (render_yaml_template [] name desc country cat1 cat2) then
                  (mkWorld store (write_text out_path (Plain text) fs2).1,
                   (write_text out_path (Plain text) fs2).2)
                else
                  (mkWorld store (write_text out_path (Plain []) fs2).1,
                   match (write_text out_path (Plain []) fs2).2 with
                   | Ok _ => Raise UnicodeEncodeError
                   | Raise e => Raise e
                   end)
          end
      end.
Proof.
  destruct w as [store fs]. unfold cmd_gen. rewrite bind_unfold.
  unfold get_store at 1. cbn [the_store disk]. cbv zeta.
  destruct (negb (bool_decide (is_Some (data store !! country)))); [done|].
  destruct (negb (bool_decide (is_Some ((data store !!! country) !! cat1))));
    [done|].
  destruct (negb (bool_decide
              (cat2 ∈ default [] ((data store !!! country) !! cat1)))); [done|].
  rewrite bind_unfold, on_disk_unfold. cbn [the_store disk].
  destruct (sync_dirs store (Some country) fs) as [fs1 [created|e]];
    cbn [fst snd]; [|done].
  rewrite bind_unfold, on_disk_unfold. cbn [the_store disk].
  destruct (ensure_dir (target_dir store country cat1 cat2) fs1)
    as [fs2 [[]|e]]; cbn [fst snd]; [|done].
  rewrite bind_unfold, on_disk_unfold. cbn [the_store disk].
  unfold path_exists. cbn [fst snd]. rewrite joinpath_fname.
  fold (gen_path store country cat1 cat2 name).
  destruct (bool_decide (is_Some (fs2 !! gen_path store country cat1 cat2 name))
            && negb overwrite); [done|].
  destruct (str_encodable _); [by rewrite on_disk_unfold|].
  rewrite bind_unfold, on_disk_unfold. cbn [the_store disk].
  by destruct (write_text _ _ fs2) as [fs3 [[]|e]].
Qed.

(** C4: when the country, the primary or the secondary category of a
    request is not in the document, [cmd_gen] stops with the message of the
    first missing level (country, cat1, cat2), and the store and the disk
    are as before the call. *)
Theorem cmd_gen_missing_level
  (now country cat1 cat2 name desc : pystr) (overwrite : bool) (w : World) :
  ¬ in_taxonomy (data (the_store w)) country cat1 cat2 →
  ∃ msg,
    cmd_gen now country cat1 cat2 name desc overwrite w
      = (w, Raise (SystemExit msg))
    ∧ ((data (the_store w) !! country = None
        ∧ msg = py "country '" ++ country ++ py "' not in meta. Add it first.")
       ∨ (∃ m, data (the_store w) !! country = Some m ∧ m !! cat1 = None
          ∧ msg = py "cat1 '" ++ cat1 ++ py "' not in meta under " ++ country
                    ++ py ". Add it first.")
       ∨ (∃ m l, data (the_store w) !! country = Some m ∧ m !! cat1 = Some l
          ∧ (cat2 ∉ l)
          ∧ msg = py "cat2 '" ++ cat2 ++ py "' not in meta under " ++ country
                    ++ py "/" ++ cat1 ++ py ". Add it first.")).
Proof.
  intros Hmiss. rewrite cmd_gen_unfold. cbv zeta.
  destruct (data (the_store w) !! country) as [m|] eqn:Ec.
  - rewrite bool_decide_eq_true_2 by eauto. cbn [negb].
    rewrite (lookup_total_Some _ _ _ Ec).
    destruct (m !! cat1) as [l|] eqn:E1.
    + rewrite bool_decide_eq_true_2 by eauto. cbn [negb default].
      rewrite bool_decide_eq_false_2.
      * eexists. split; [done|]. right. right. exists m, l.
        split_and!; try done. intros Hin. apply Hmiss. by exists m, l.
      * intros Hin. apply Hmiss. by exists m, l.
    + rewrite bool_decide_eq_false_2 by (by intros []). cbn [negb].
      eexists. split; [done|]. right. left. by exists m.
  - rewrite bool_decide_eq_false_2 by (by intros []). cbn [negb].
    eexists. split; [done|]. by left.
Qed.

Lemma cmd_gen_missing_level_witness :
  ∃ msg,
    cmd_gen [] (py "cn") (py "food") (py "snacks") (py "Spicy Chips!") [] false
      (mkWorld (sample_store fresh_doc) fresh_meta)
      = (mkWorld (sample_store fresh_doc) fresh_meta, Raise (SystemExit msg))
    ∧ (py "cat1 'food'") `prefix_of` msg.
Proof.
  destruct (cmd_gen_missing_level [] (py "cn") (py "food") (py "snacks")
              (py "Spicy Chips!") [] false
              (mkWorld (sample_store fresh_doc) fresh_meta))
    as (msg & Hrun & Hmsg).
  - intros (m & l & Hm & Hl & _). cbn [the_store data sample_store] in Hm.
    unfold fresh_doc in Hm. rewrite lookup_singleton_eq in Hm.
    injection Hm as <-. by rewrite lookup_empty in Hl.
  - exists msg. split; [exact Hrun|].
    cbn [the_store data sample_store] in Hmsg. unfold fresh_doc in Hmsg.
    rewrite lookup_singleton_eq in Hmsg.
    destruct Hmsg as [[? _]|[(m & _ & _ & ->)|(m & l & Hm & Hl & _)]].
    + discriminate.
    + by eexists.
    + injection Hm as <-. by rewrite lookup_empty in Hl.
Defined.

(** A request whose target exists and that does not ask to overwrite
    fails, whatever else holds, and nothing on disk is removed or
    changed. *)
Lemma cmd_gen_no_overwrite
  (now country cat1 cat2 name desc : pystr) (w : World) :
  is_Some (disk w !! gen_path (the_store w) country cat1 cat2 name) →
  ∃ e fs',
    cmd_gen now country cat1 cat2 name desc false w
      = (mkWorld (the_store w) fs', Raise e)
    ∧ disk w ⊆ fs'.
Proof.
  intros [x Hx]. rewrite cmd_gen_unfold. cbv zeta. destruct w as [store fs].
  cbn [the_store disk] in *.
  destruct (negb _); [by eauto|]. destruct (negb _); [by eauto|].
  destruct (negb _); [by eauto|].
  pose proof (sync_flat_mono (triple_paths store (Some country)) [] fs) as H1.
  rewrite <- sync_dirs_flat in H1.
  destruct (sync_dirs store (Some country) fs) as [fs1 [created|e]];
    cbn [fst] in H1; [|by eauto].
  pose proof (mkdir_parents_mono [] (target_dir store country cat1 cat2) fs1)
    as H2. unfold ensure_dir.
  destruct (mkdir_parents [] (target_dir store country cat1 cat2) fs1)
    as [fs2 [[]|e]]; cbn [fst] in H2.
  - rewrite bool_decide_eq_true_2.
    + eexists _, fs2. split; [done|]. by etrans.
    + exists x. eapply lookup_weaken; [|exact H2].
      by eapply lookup_weaken.
  - eexists _, fs2. split; [done|]. by etrans.
Qed.

(** After a request that succeeded, the same request without the
    overwrite flag fails with the message that the file exists, and the
    store and the disk stay as the first request left them. *)
Lemma cmd_gen_twice
  (now now' country cat1 cat2 name desc : pystr) (overwrite : bool)
  (w w1 : World) :
  cmd_gen now country cat1 cat2 name desc overwrite w = (w1, Ok ()) →
  cmd_gen now' country cat1 cat2 name desc false w1
    = (w1, Raise (SystemExit
                    (msg_exists (gen_path (the_store w) country cat1 cat2 name)))).
Proof.
  rewrite !cmd_gen_unfold. cbv zeta. destruct w as [store fs].
  cbn [the_store disk].
  destruct (negb (bool_decide (is_Some (data store !! country)))) eqn:B1;
    [done|].
  destruct (negb (bool_decide (is_Some ((data store !!! country) !! cat1))))
    eqn:B2; [done|].
  destruct (negb (bool_decide
              (cat2 ∈ default [] ((data store !!! country) !! cat1))))
    eqn:B3; [done|].
  destruct (sync_dirs store (Some country) fs) as [fs1 [created|e]] eqn:Hs;
    [|done].
  destruct (ensure_dir (target_dir store country cat1 cat2) fs1)
    as [fs2 [[]|e]] eqn:He; [|done].
  set (out := gen_path store country cat1 cat2 name).
  destruct (bool_decide (is_Some (fs2 !! out)) && negb overwrite); [done|].
  destruct (str_encodable _);
    [|by destruct ((write_text out (Plain []) fs2).2)].
  unfold write_text.
  destruct (fs2 !! out) as [[|t0]|] eqn:Eo; [done| |];
    (destruct (fs2 !! parent out) as [[|t1]|] eqn:Ep; [|done|done]);
    cbn [fst snd]; intros [= <-]; cbn [the_store disk];
    rewrite B1, B2, B3.
  all: rewrite sync_dirs_flat in Hs;
    pose proof (sync_flat_exists _ _ _ _ _ Hs) as Hex;
    pose proof (mkdir_parents_mono [] (target_dir store country cat1 cat2) fs1)
      as Hm; unfold ensure_dir in He; rewrite He in Hm; cbn [fst] in Hm;
    destruct (mkdir_parents_ok _ _ _ _ He) as [Hp1 _].
  all: rewrite sync_dirs_flat, (sync_flat_noop _ [] (<[out := _]> fs2));
    [|intros p Hp; destruct (Hex p Hp) as [y Hy];
      rewrite lookup_insert; destruct (decide (out = p)); [by eexists|];
      exists y; by eapply lookup_weaken].
  all: unfold ensure_dir; rewrite mkdir_parents_noop;
    [|intros q Hq; rewrite lookup_insert_ne; [by apply Hp1|];
      intros <-; apply prefixes_from_prefix, prefix_length in Hq;
      unfold out, gen_path in Hq; rewrite length_app in Hq;
      simpl in Hq; lia].
  all: rewrite lookup_insert_eq, bool_decide_eq_true_2 by eauto; done.
Qed.

(** ** The end-to-end scenario *)

Lemma lstrip_app_nonempty (P : N → bool) (x y : pystr) :
  lstrip P x ≠ [] → lstrip P (x ++ y) = lstrip P x ++ y.
Proof.
  induction x as [|c x IH]; [done|]. simpl. destruct (P c); [apply IH|done].
Qed.

Lemma rstrip_app (P : N → bool) (a b : pystr) :
  rstrip P b ≠ [] → rstrip P (a ++ b) = a ++ rstrip P b.
Proof.
  unfold rstrip. intros H. rewrite reverse_app, lstrip_app_nonempty.
  - by rewrite reverse_app, reverse_involutive.
  - intros E. apply H. by rewrite E.
Qed.

Lemma render_spicy (now : pystr) :
  render_yaml_template now (py "Spicy Chips!") two_lines
    (py "cn") (py "food") (py "snacks")
  = expected_stub now.
Proof.
  unfold render_yaml_template, expected_stub.
  set (tail := [10] ++ py "# path: cn/food/snacks/Spicy-Chips!.yaml" ++ [10; 10]
                 ++ py "product:" ++ [10]
                 ++ py "  name: " ++ [34] ++ py "Spicy Chips!" ++ [34; 10]
                 ++ py "  description: |" ++ [10]
                 ++ py "    line1" ++ [10] ++ py "    line2" ++ [10]).
  set (front := py "# data-records.net product stub" ++ [10]
                  ++ py "# generated_at: ").
  transitivity (rstrip is_space ((front ++ now) ++ tail) ++ [10]).
  { vm_compute. reflexivity. }
  rewrite rstrip_app by (vm_compute; discriminate).
  vm_compute. reflexivity.
Qed.

(** C2, as stated, fails: the sanitiser keeps the case of the letters and
    the exclamation mark, so the scenario writes no file named
    [spicy-chips.yaml]; the file it writes is [Spicy-Chips!.yaml]. *)
Lemma e2e_no_lowercase_slug :
  (e2e_run (py "2024-01-01T00:00:00Z")).2 = Ok ()
  ∧ (e2e_run (py "2024-01-01T00:00:00Z")).1
      !! (snacks_dir ++ [py "spicy-chips.yaml"]) = None
  ∧ is_Some ((e2e_run (py "2024-01-01T00:00:00Z")).1
               !! (snacks_dir ++ [py "Spicy-Chips!.yaml"]))
  ∧ 33 ∈ slugify_filename (py "Spicy Chips!").
Proof.
  split_and!.
  - vm_compute. reflexivity.
  - vm_compute. reflexivity.
  - apply (bool_decide_unpack _). vm_compute. exact I.
  - apply (bool_decide_unpack _). vm_compute. exact I.
Qed.

(** C2, amended: starting from an empty root, after adding the country
    [cn], the primary category [food] and the secondary category [snacks],
    synchronising and generating a record named [Spicy Chips!] with the
    two-line description, every run succeeds and the file is
    [cn/food/snacks/Spicy-Chips!.yaml]: the slug keeps the capitals and the
    exclamation mark, only the space becomes a hyphen. The body ends with
    the two lines of the description, each indented by four spaces. *)
Theorem e2e_generates_stub (now : pystr) :
  (e2e_run now).2 = Ok ()
  ∧ (e2e_run now).1 !! (sample_root
                          ++ [py "cn"; py "food"; py "snacks";
                              py "Spicy-Chips!.yaml"])
    = Some (File (Plain (expected_stub now)))
  ∧ slugify_filename (py "Spicy Chips!") ++ py ".yaml" = py "Spicy-Chips!.yaml"
  ∧ (py "    line1" ++ [10] ++ py "    line2" ++ [10])
      `suffix_of` expected_stub now.
Proof.
  split_and!.
  - vm_compute. reflexivity.
  - rewrite <- render_spicy. vm_compute. reflexivity.
  - vm_compute. reflexivity.
  - unfold expected_stub.
    exists (py "# data-records.net product stub" ++ [10]
            ++ py "# generated_at: " ++ now ++ [10]
            ++ py "# path: cn/food/snacks/Spicy-Chips!.yaml" ++ [10; 10]
            ++ py "product:" ++ [10]
            ++ py "  name: " ++ [34] ++ py "Spicy Chips!" ++ [34; 10]
            ++ py "  description: |" ++ [10]).
    cbn [join]. rewrite <- !app_assoc. vm_compute. reflexivity.
Qed.

(** ** The schema layer *)

Lemma check_hash_nil (v : option pystr) :
  check_hash v = [] ↔ ∃ h, v = Some h ∧ length h = 64%nat.
Proof.
  unfold check_hash. destruct v as [h|]; [|split; [done|by intros (? & ? & _)]].
  destruct (Nat.ltb_spec (length h) 64); [split; [done|]|].
  - intros (? & [= <-] & ?). lia.
  - destruct (Nat.ltb_spec 64 (length h)).
    + split; [done|]. intros (? & [= <-] & ?). lia.
    + split; [|done]. intros _. exists h. split; [done|lia].
Qed.

Lemma validate_uri_nil (v : option pystr) :
  validate_uri v = []
  ↔ ∃ u, v = Some u ∧ (py "https://assets.data-records.net/") `prefix_of` u.
Proof.
  unfold validate_uri, startswith.
  destruct v as [u|]; [|split; [done|by intros (? & ? & _)]].
  change (py "https://" ++ ASSETS_DOMAIN ++ py "/")
    with (py "https://assets.data-records.net/").
  case_bool_decide as H.
  - split; [|done]. intros _. by exists u.
  - split; [done|]. by intros (? & [= <-] & ?).
Qed.

Lemma asset_errors_nil (a : AssetInput) : asset_errors a = [] ↔ asset_valid a.
Proof.
  unfold asset_errors, asset_valid.
  rewrite <- check_hash_nil, <- validate_uri_nil.
  destruct (role a); simpl.
  - rewrite app_nil. split; [intros []; eauto|tauto].
  - split; [done|]. by intros [[] _].
Qed.

Lemma assets_errors_nil_from (f : nat → violation → violation)
    (l : list AssetInput) :
  mjoin (imap (λ i a, f i <$> asset_errors a) l) = []
  ↔ Forall asset_valid l.
Proof.
  revert f. induction l as [|a l IH]; intros f; simpl.
  - split; [constructor|done].
  - rewrite app_nil, Forall_cons, <- asset_errors_nil.
    unfold compose. rewrite (IH (λ i, f (S i))).
    split; intros [H1 H2]; (split; [|done]).
    + by apply fmap_nil_inv in H1.
    + by rewrite H1.
Qed.

Lemma assets_errors_nil (l : list AssetInput) :
  assets_errors l = [] ↔ Forall asset_valid l.
Proof. apply assets_errors_nil_from. Qed.

(** C1, as stated, fails: neither the role nor the alphabet of the hash is
    checked. An asset with an empty role and a hash of sixty-four letters
    z, which are no hexadecimal digits, is accepted. *)
Lemma odd_asset_accepted :
  AssetSchema odd_asset
    = Ok (mkAsset [] (replicate 64 122) (py "https://assets.data-records.net/x"))
  ∧ role odd_asset = Some []
  ∧ forallb is_hex (replicate 64 122) = false.
Proof. split_and!; vm_compute; reflexivity. Qed.

(** C1, amended: an asset is accepted exactly when its role, hash and URI
    are given, the hash has 64 characters (of any kind) and the URI begins
    with [https://assets.data-records.net/]; the role may be empty. Any
    other asset makes validation raise a [ValidationError], for the asset
    alone and for a record payload that lists it, and a payload whose
    assets all satisfy the three conditions has no asset violation. *)
Theorem asset_schema_checks
  (is_decimal : N → bool) (fromisoformat_ok : pystr → bool)
  (a : AssetInput) (l : list AssetInput)
  (id ts owner : option pystr) (subj : option (gmap pystr pystr)) :
  (asset_valid a ↔ ∃ v, AssetSchema a = Ok v)
  ∧ (¬ asset_valid a ↔
     ∃ e errs, AssetSchema a = Raise (ValidationError (e :: errs)))
  ∧ (Forall asset_valid l ↔ assets_errors l = [])
  ∧ (¬ Forall asset_valid l →
     ∃ e errs,
       RecordSchema is_decimal fromisoformat_ok
         (mkRecordInput id ts subj (Some l) owner)
       = Raise (ValidationError (e :: errs))).
Proof.
  split_and!.
  - rewrite <- asset_errors_nil. unfold AssetSchema.
    destruct (asset_errors a) as [|e errs].
    + split; [by eexists|done].
    + split; [done|]. by intros [v ?].
  - rewrite <- asset_errors_nil. unfold AssetSchema.
    destruct (asset_errors a) as [|e errs].
    + split; [done|]. by intros (? & ? & ?).
    + split; [by eexists _, _|done].
  - by rewrite assets_errors_nil.
  - rewrite <- assets_errors_nil. intros H. unfold RecordSchema, record_errors.
    cbn [record_id timestamp subject assets].
    destruct (_ ++ _ ++ _ ++ assets_errors l) as [|e errs] eqn:E; [|by eauto].
    by apply app_nil in E as [_ [_ [_ ?]%app_nil]%app_nil].
Qed.

(** ** The record generator of [engine_v1] *)

Section EngineFacts.
Variable is_decimal : N → bool.
Variable isalnum : N → bool.
Variable fromisoformat_ok : pystr → bool.
Variable record_json : ValidRecord → pystr.

Lemma generate_unfold (d : RecordInput) (dir : Path) (fs : FS) :
  generate_record_yaml is_decimal isalnum fromisoformat_ok record_json d dir fs =
    match RecordSchema is_decimal fromisoformat_ok d with
    | Raise e => (fs, Raise e)
    | Ok r =>
        let p := dir ++ [record_filename isalnum d] in
        let fs1 := if bool_decide (is_Some (fs !! dir)) then (fs, Ok ())
                   else ensure_dir dir fs in
        match fs1 with
        | (fs1, Raise e) => (fs1, Raise e)
        | (fs1, Ok _) =>
            match write_text p (Plain (record_text record_json r)) fs1 with
            | (fs2, Ok _) => (fs2, Ok p)
            | (fs2, Raise e) => (fs2, Raise e)
            end
        end
    end.
Proof.
  unfold generate_record_yaml. rewrite bind_unfold. unfold lift at 1.
  destruct (RecordSchema is_decimal fromisoformat_ok d) as [r|e]; [|done].
  rewrite bind_unfold. unfold path_exists at 1. cbv zeta.
  rewrite bind_unfold.
  destruct (bool_decide (is_Some (fs !! dir))).
  - unfold mret at 1, M_ret at 1. rewrite bind_unfold. fold (record_text record_json r).
    by destruct (write_text _ _ fs) as [? [[]|]].
  - destruct (ensure_dir dir fs) as [fs1 [[]|e]]; [|done].
    rewrite bind_unfold. fold (record_text record_json r).
    by destruct (write_text _ _ fs1) as [? [[]|]].
Qed.

(** C3 on [generate_record_yaml]: once a record has been generated, any
    later valid request that maps to the same file name, the same request
    included, finds the file in place, returns normally and leaves its own
    text in the file. Nothing checks for an existing file and nothing
    raises. *)
Theorem generate_record_yaml_replaces
  (d d' : RecordInput) (r' : ValidRecord) (dir p : Path) (fs fs1 : FS) :
  generate_record_yaml is_decimal isalnum fromisoformat_ok record_json d dir fs
    = (fs1, Ok p) →
  record_filename isalnum d' = record_filename isalnum d →
  RecordSchema is_decimal fromisoformat_ok d' = Ok r' →
  is_Some (fs1 !! p)
  ∧ generate_record_yaml is_decimal isalnum fromisoformat_ok record_json d' dir fs1
    = (<[p := File (Plain (record_text record_json r'))]> fs1, Ok p).
Proof.
  rewrite !generate_unfold. intros Hrun Hname Hvalid. rewrite Hvalid, Hname.
  destruct (RecordSchema is_decimal fromisoformat_ok d) as [r|e]; [|done].
  cbv zeta in *. set (q := dir ++ [record_filename isalnum d]) in *.
  destruct (if bool_decide (is_Some (fs !! dir)) then (fs, Ok ())
            else ensure_dir dir fs) as [fs0 [[]|e]]; [|done].
  unfold write_text in Hrun.
  assert (parent q = dir) as Hparent by apply removelast_last.
  rewrite Hparent in Hrun.
  assert (fs0 !! dir = Some Dir ∧ fs1 = <[q := File (Plain (record_text record_json r))]> fs0
          ∧ p = q) as (Hdir & -> & ->).
  { destruct (fs0 !! q) as [[|?]|]; [done| |];
      destruct (fs0 !! dir) as [[|?]|]; simplify_eq; done. }
  assert (q ≠ dir) as Hne.
  { intros E. apply (f_equal length) in E. unfold q in E.
    rewrite length_app in E. simpl in E. lia. }
  split; [rewrite lookup_insert_eq; eauto|].
  rewrite bool_decide_eq_true_2
    by (rewrite lookup_insert_ne by done; eauto).
  unfold write_text. rewrite lookup_insert_eq, Hparent.
  by rewrite lookup_insert_ne, Hdir by done.
Qed.
End EngineFacts.

Lemma generate_record_yaml_replaces_witness :
  ∃ p fs1 fs2,
    generate_record_yaml ascii_decimal ascii_alnum one_timestamp id_only_json
      (chips_record (py "AB-CDE-FGH-123")) out_dir empty_root = (fs1, Ok p)
    ∧ fs1 !! p = Some (File (Plain (py "# Data Records Canonical Entry"
                                     ++ [10] ++ py "# ID: AB-CDE-FGH-123"
                                     ++ [10] ++ py "AB-CDE-FGH-123")))
    ∧ generate_record_yaml ascii_decimal ascii_alnum one_timestamp id_only_json
        (chips_record (py "AB-CDE-FGH-124")) out_dir fs1 = (fs2, Ok p)
    ∧ fs2 !! p = Some (File (Plain (py "# Data Records Canonical Entry"
                                     ++ [10] ++ py "# ID: AB-CDE-FGH-124"
                                     ++ [10] ++ py "AB-CDE-FGH-124"))).
Proof.
  set (gen := generate_record_yaml ascii_decimal ascii_alnum one_timestamp
                id_only_json).
  set (d := chips_record (py "AB-CDE-FGH-123")).
  set (d' := chips_record (py "AB-CDE-FGH-124")).
  set (p := out_dir ++ [py "Acme-Chipsyaml.yaml"]).
  assert ((gen d out_dir empty_root).2 = Ok p) as H1
    by (vm_compute; reflexivity).
  apply run_eta in H1.
  assert (RecordSchema ascii_decimal one_timestamp d'
          = Ok (chips_valid (py "AB-CDE-FGH-124"))) as Hv.
  { unfold RecordSchema.
    replace (record_errors ascii_decimal one_timestamp d') with (@nil violation)
      by (vm_compute; reflexivity).
    reflexivity. }
  destruct (generate_record_yaml_replaces ascii_decimal ascii_alnum
              one_timestamp id_only_json d d' _ out_dir p empty_root _
              H1 eq_refl Hv) as [_ H2].
  exists p, (gen d out_dir empty_root).1. eexists.
  split; [exact H1|]. split; [vm_compute; reflexivity|].
  split; [exact H2|]. apply lookup_insert_eq.
Defined.


(** * Further properties of the code *)

#[local] Set Warnings "-clear-no-such-hyp".

(** ** The methods of the store, continued *)

Lemma store_eq (s t : Store Doc) :
  root s = root t → meta_dir s = meta_dir t → meta_file s = meta_file t →
  (∀ k, data s !! k = data t !! k) → s = t.
Proof.
  destruct s, t. simpl. intros -> -> -> H. f_equal. by apply map_eq.
Qed.

Lemma elem_of_cat1_list (s : Store Doc) (c cat1 : pystr) :
  cat1 ∈ cat1_list s c ↔ ∃ m, data s !! c = Some m ∧ is_Some (m !! cat1).
Proof.
  unfold cat1_list. rewrite elem_of_sorted, elem_of_keys.
  destruct (data s !! c) as [m|]; simpl.
  - split; [by exists m|]. by intros (? & [= <-] & ?).
  - rewrite lookup_empty. split; [by intros []|]. by intros (? & ? & _).
Qed.

Lemma elem_of_cat2_list (s : Store Doc) (c cat1 x : pystr) :
  x ∈ cat2_list s c cat1 ↔ in_taxonomy (data s) c cat1 x.
Proof.
  unfold cat2_list, in_taxonomy. rewrite elem_of_sorted.
  destruct (data s !! c) as [m|]; simpl.
  - destruct (m !! cat1) as [l|] eqn:E; simpl.
    + split; [by exists m, l|]. by intros (? & ? & [= <-] & [= <-]%(eq_trans (eq_sym E)) & ?).
    + split; [by intros ?%elem_of_nil|]. intros (? & ? & [= <-] & ? & _). congruence.
  - rewrite lookup_empty. simpl. split; [by intros ?%elem_of_nil|].
    by intros (? & ? & ? & _).
Qed.

(** X1: adding what is there already changes nothing: each of
    [add_country], [add_cat1] and [add_cat2], called a second time with the
    same arguments, returns the store of the first call. *)
Theorem add_twice (s : Store Doc) (c cat1 cat2 : pystr) :
  add_country c (add_country c s) = add_country c s
  ∧ add_cat1 c cat1 (add_cat1 c cat1 s) = add_cat1 c cat1 s
  ∧ add_cat2 c cat1 cat2 (add_cat2 c cat1 cat2 s) = add_cat2 c cat1 cat2 s.
Proof.
  split_and!.
  - apply store_eq; try (by rewrite !(proj1 (add_country_fields _ _))
                         || by rewrite !(proj1 (proj2 (add_country_fields _ _)))
                         || by rewrite !(proj2 (proj2 (add_country_fields _ _)))).
    intros k. rewrite !add_country_lookup. destruct (decide (k = c)) as [->|]; [|done].
    by rewrite decide_True.
  - apply store_eq; try (by rewrite !(proj1 (add_cat1_fields _ _ _))
                         || by rewrite !(proj1 (proj2 (add_cat1_fields _ _ _)))
                         || by rewrite !(proj2 (proj2 (add_cat1_fields _ _ _)))).
    intros k. rewrite !add_cat1_lookup. destruct (decide (k = c)) as [->|]; [|done].
    rewrite decide_True by done. cbv zeta. simpl. f_equal.
    set (m := default ∅ (data s !! c)).
    destruct (decide (is_Some (m !! cat1))) as [H|H].
    + by rewrite decide_True.
    + rewrite decide_True; [done|]. rewrite lookup_insert_eq. eauto.
  - apply store_eq; try (by rewrite !(proj1 (add_cat2_fields _ _ _ _))
                         || by rewrite !(proj1 (proj2 (add_cat2_fields _ _ _ _)))
                         || by rewrite !(proj2 (proj2 (add_cat2_fields _ _ _ _)))).
    intros k. rewrite !add_cat2_lookup. destruct (decide (k = c)) as [->|]; [|done].
    rewrite decide_True by done. cbv zeta. simpl. f_equal.
    set (m := default ∅ (data s !! c)). set (lst := default [] (m !! cat1)).
    rewrite lookup_insert_eq. simpl. rewrite insert_insert_eq. f_equal.
    destruct (decide (cat2 ∈ lst)) as [H|H].
    + by rewrite decide_True.
    + rewrite decide_True; [done|]. apply elem_of_sorted.
      apply elem_of_app. right. by left.
Qed.

(** X2: [add_cat2] creates the country and the primary category when they
    are missing: afterwards the three keys are listed. Nothing that was
    listed is lost, and the only new secondary category is the one added. *)
Theorem add_cat2_creates_ancestors (s : Store Doc) (c cat1 cat2 : pystr) :
  let s' := add_cat2 c cat1 cat2 s in
  c ∈ countries s' ∧ cat1 ∈ cat1_list s' c ∧ cat2 ∈ cat2_list s' c cat1
  ∧ (∀ k, k ∈ countries s' ↔ k = c ∨ k ∈ countries s)
  ∧ (∀ k, k ∈ cat1_list s' c ↔ k = cat1 ∨ k ∈ cat1_list s c)
  ∧ (∀ x, x ∈ cat2_list s' c cat1 ↔ x = cat2 ∨ x ∈ cat2_list s c cat1).
Proof.
  intros s'.
  assert (∀ k, k ∈ countries s' ↔ k = c ∨ k ∈ countries s) as Hc.
  { intros k. rewrite !elem_of_countries. unfold s'. rewrite add_cat2_lookup.
    destruct (decide (k = c)) as [->|Hne].
    - split; [by left|]. intros _. by eexists.
    - split; [by right|]. by intros [?|?]. }
  assert (∀ k, k ∈ cat1_list s' c ↔ k = cat1 ∨ k ∈ cat1_list s c) as H1.
  { intros k. rewrite !elem_of_cat1_list. unfold s'.
    rewrite add_cat2_lookup, decide_True by done. cbv zeta.
    destruct (data s !! c) as [m|] eqn:E; simpl.
    - split.
      + intros (? & [= <-] & Hk). rewrite lookup_insert in Hk.
        destruct (decide (cat1 = k)); [by left|]. right. by exists m.
      + intros [->|(? & [= <-] & Hk)].
        * eexists. split; [done|]. rewrite lookup_insert_eq. eauto.
        * eexists. split; [done|]. rewrite lookup_insert.
          destruct (decide (cat1 = k)); eauto.
    - split.
      + intros (? & [= <-] & Hk). rewrite lookup_insert in Hk.
        destruct (decide (cat1 = k)); [by left|].
        rewrite lookup_empty in Hk. by destruct Hk.
      + intros [->|(? & ? & _)]; [|done].
        eexists. split; [done|]. rewrite lookup_insert_eq. eauto. }
  assert (∀ x, x ∈ cat2_list s' c cat1 ↔ x = cat2 ∨ x ∈ cat2_list s c cat1)
    as H2.
  { intros x. unfold s'. rewrite cat2_list_add_cat2. cbv zeta.
    unfold cat2_list.
    set (lst := default [] (default ∅ (data s !! c) !! cat1)).
    rewrite !elem_of_sorted. destruct (decide (cat2 ∈ lst)) as [H|H].
    - split; [by right|]. by intros [->|].
    - rewrite elem_of_sorted, elem_of_app, list_elem_of_singleton. tauto. }
  split_and!; try done.
  - apply Hc. by left.
  - apply H1. by left.
  - apply H2. by left.
Qed.

Lemma remove_first_other (x y : pystr) (l : list pystr) :
  y ≠ x → y ∈ remove_first x l ↔ y ∈ l.
Proof.
  intros Hne. induction l as [|z l IH]; [done|]. simpl. case_bool_decide.
  - subst. rewrite elem_of_cons. naive_solver.
  - rewrite !elem_of_cons, IH. done.
Qed.

Lemma remove_first_NoDup (x : pystr) (l : list pystr) :
  NoDup l → x ∉ remove_first x l.
Proof.
  induction 1 as [|z l Hz Hnd IH]; simpl; [by intros ?%elem_of_nil|].
  case_bool_decide; [by subst|]. rewrite elem_of_cons. naive_solver.
Qed.

Lemma keys_NoDup {A} (m : gmap pystr A) : NoDup (keys m).
Proof. apply NoDup_fst_map_to_list. Qed.

(** The listing of the countries depends on the set of keys only. *)
Lemma countries_ext (s t : Store Doc) :
  (∀ k, is_Some (data s !! k) ↔ is_Some (data t !! k)) →
  countries s = countries t.
Proof.
  intros H. apply (Sorted_unique str_le); try apply sorted_Sorted.
  unfold countries. rewrite !sorted_perm.
  apply NoDup_Permutation; try apply keys_NoDup.
  intros k. by rewrite !elem_of_keys.
Qed.

Lemma remove_cat2_flag (s : Store Doc) (c cat1 x : pystr) :
  (remove_cat2 c cat1 x s).1 = true ↔ x ∈ cat2_list s c cat1.
Proof.
  unfold cat2_list. rewrite elem_of_sorted. unfold remove_cat2.
  destruct (default ∅ (data s !! c) !! cat1) as [l|]; simpl;
    [|split; [done|by intros ?%elem_of_nil]].
  destruct l as [|z l]; simpl; [split; [done|by intros ?%elem_of_nil]|].
  case_bool_decide; simpl; split; done.
Qed.

Lemma remove_cat2_false (s : Store Doc) (c cat1 x : pystr) :
  (remove_cat2 c cat1 x s).1 = false → (remove_cat2 c cat1 x s).2 = s.
Proof.
  unfold remove_cat2.
  destruct (default ∅ (data s !! c) !! cat1) as [l|]; simpl; [|done].
  destruct (is_empty l); [done|]. by case_bool_decide.
Qed.

Lemma remove_cat2_countries (s : Store Doc) (c cat1 x : pystr) :
  countries (remove_cat2 c cat1 x s).2 = countries s.
Proof.
  apply countries_ext. intros k. rewrite remove_cat2_lookup.
  destruct (decide (k = c)) as [->|]; [|done]. by rewrite fmap_is_Some.
Qed.

(** X3: [remove_cat2] returns true exactly when the name was listed; when
    it returns false the store is unchanged. Every other name stays listed
    as before, and when the list had no duplicate the name is no longer
    listed afterwards. *)
Theorem remove_cat2_result (s : Store Doc) (c cat1 x : pystr) :
  ((remove_cat2 c cat1 x s).1 = true ↔ x ∈ cat2_list s c cat1)
  ∧ ((remove_cat2 c cat1 x s).1 = false → (remove_cat2 c cat1 x s).2 = s)
  ∧ (∀ y, y ≠ x →
       y ∈ cat2_list (remove_cat2 c cat1 x s).2 c cat1 ↔ y ∈ cat2_list s c cat1)
  ∧ (NoDup (cat2_list s c cat1) →
     x ∉ cat2_list (remove_cat2 c cat1 x s).2 c cat1)
  ∧ countries (remove_cat2 c cat1 x s).2 = countries s.
Proof.
  assert (∀ y, y ∈ cat2_list (remove_cat2 c cat1 x s).2 c cat1
               ↔ y ∈ remove_first x (default [] (default ∅ (data s !! c) !! cat1)))
    as Hafter.
  { intros y. unfold cat2_list at 1.
    rewrite remove_cat2_lookup, decide_True by done. rewrite elem_of_sorted.
    destruct (data s !! c) as [m|]; simpl; [|by rewrite lookup_empty].
    destruct (m !! cat1) as [l|] eqn:E; simpl.
    - by rewrite lookup_insert_eq.
    - by rewrite E. }
  split_and!.
  - apply remove_cat2_flag.
  - apply remove_cat2_false.
  - intros y Hy. rewrite Hafter. unfold cat2_list. rewrite elem_of_sorted.
    by apply remove_first_other.
  - intros Hnd. rewrite Hafter. apply remove_first_NoDup.
    unfold cat2_list in Hnd. by apply (proj1 (sorted_NoDup _)) in Hnd.
  - apply remove_cat2_countries.
Qed.

Lemma remove_cat1_flag (s : Store Doc) (c cat1 : pystr) :
  (remove_cat1 c cat1 s).1 = true ↔ cat1 ∈ cat1_list s c.
Proof.
  rewrite elem_of_cat1_list. unfold remove_cat1.
  destruct (data s !! c) as [m|]; simpl; [|split; [done|by intros (? & ? & _)]].
  destruct (decide (m = ∅)) as [->|Hne].
  - rewrite bool_decide_eq_true_2 by done. simpl. split; [done|].
    intros (? & [= <-] & Hk). rewrite lookup_empty in Hk. by destruct Hk.
  - rewrite (bool_decide_eq_false_2 (m = ∅)) by done. simpl.
    case_bool_decide as Hk; simpl.
    + split; [|done]. intros _. by exists m.
    + split; [done|]. by intros (? & [= <-] & ?).
Qed.

Lemma remove_cat1_false (s : Store Doc) (c cat1 : pystr) :
  (remove_cat1 c cat1 s).1 = false → (remove_cat1 c cat1 s).2 = s.
Proof.
  unfold remove_cat1. destruct (data s !! c) as [m|]; simpl; [|done].
  by destruct (_ || _).
Qed.

Lemma remove_cat1_countries (s : Store Doc) (c cat1 : pystr) :
  countries (remove_cat1 c cat1 s).2 = countries s.
Proof.
  apply countries_ext. intros k. rewrite remove_cat1_lookup.
  destruct (decide (k = c)) as [->|]; [|done]. by rewrite fmap_is_Some.
Qed.

(** X4: [remove_cat1] returns true exactly when the primary category was
    listed under the country; when it returns false the store is unchanged.
    Afterwards the category is not listed, the other categories of the
    country are listed as before, and the country itself stays. *)
Theorem remove_cat1_result (s : Store Doc) (c cat1 : pystr) :
  ((remove_cat1 c cat1 s).1 = true ↔ cat1 ∈ cat1_list s c)
  ∧ ((remove_cat1 c cat1 s).1 = false → (remove_cat1 c cat1 s).2 = s)
  ∧ (cat1 ∉ cat1_list (remove_cat1 c cat1 s).2 c)
  ∧ (∀ k, k ≠ cat1 →
       k ∈ cat1_list (remove_cat1 c cat1 s).2 c ↔ k ∈ cat1_list s c)
  ∧ cat2_list (remove_cat1 c cat1 s).2 c cat1 = []
  ∧ countries (remove_cat1 c cat1 s).2 = countries s.
Proof.
  split_and!.
  - apply remove_cat1_flag.
  - apply remove_cat1_false.
  - rewrite elem_of_cat1_list, remove_cat1_lookup, decide_True by done.
    intros (m & Hm & Hk). destruct (data s !! c); simplify_eq/=.
    rewrite lookup_delete_eq in Hk. by destruct Hk.
  - intros k Hk. rewrite !elem_of_cat1_list, remove_cat1_lookup,
      decide_True by done.
    destruct (data s !! c) as [m|]; simpl.
    + split; intros (? & [= <-] & H); eexists; (split; [done|]).
      * by rewrite lookup_delete_ne in H.
      * by rewrite lookup_delete_ne.
    + split; by intros (? & ? & _).
  - unfold cat2_list. rewrite remove_cat1_lookup, decide_True by done.
    destruct (data s !! c) as [m|]; simpl.
    + by rewrite lookup_delete_eq.
    + by rewrite lookup_empty.
  - apply remove_cat1_countries.
Qed.

(** X5: the listings are in order: [countries] and [cat1_list] are sorted
    and hold each key once, [cat2_list] is sorted and holds what the stored
    list holds; for a country or a primary category that is not in the
    document the listings are empty. *)
Theorem listings_sorted (s : Store Doc) (c cat1 : pystr) :
  Sorted str_le (countries s) ∧ NoDup (countries s)
  ∧ Sorted str_le (cat1_list s c) ∧ NoDup (cat1_list s c)
  ∧ Sorted str_le (cat2_list s c cat1)
  ∧ cat2_list s c cat1 ≡ₚ default [] (default ∅ (data s !! c) !! cat1)
  ∧ (c ∉ countries s → cat1_list s c = [] ∧ cat2_list s c cat1 = [])
  ∧ (cat1 ∉ cat1_list s c → cat2_list s c cat1 = []).
Proof.
  split_and!; try apply sorted_Sorted; try apply sorted_perm.
  - apply sorted_NoDup, keys_NoDup.
  - apply sorted_NoDup, keys_NoDup.
  - rewrite elem_of_countries. intros H%eq_None_not_Some.
    unfold cat1_list, cat2_list. rewrite H. simpl.
    unfold keys. by rewrite map_to_list_empty, lookup_empty.
  - rewrite elem_of_cat1_list. intros H. unfold cat2_list.
    destruct (data s !! c) as [m|]; simpl; [|by rewrite lookup_empty].
    destruct (m !! cat1) as [l|] eqn:E; [|done]. destruct H. exists m. eauto.
Qed.

(** X6: when the stored list of a primary category is sorted and free of
    duplicates, removing a secondary category that is listed in it and
    adding it again gives the store back. *)
Theorem remove_then_add_cat2 (s : Store Doc) (c cat1 x : pystr) :
  list_ok (default [] (default ∅ (data s !! c) !! cat1)) →
  x ∈ cat2_list s c cat1 →
  add_cat2 c cat1 x (remove_cat2 c cat1 x s).2 = s.
Proof.
  intros Hok (m & l & Hm & Hl & Hx)%elem_of_cat2_list.
  rewrite Hm in Hok. cbn [default from_option id] in Hok.
  rewrite Hl in Hok. cbn [default from_option id] in Hok.
  pose proof (apply_op_fields (OpRemoveCat2 c cat1 x) s) as (Hr & Hd & Hf).
  cbn [apply_op] in Hr, Hd, Hf.
  apply store_eq.
  - by rewrite (proj1 (add_cat2_fields _ _ _ _)).
  - by rewrite (proj1 (proj2 (add_cat2_fields _ _ _ _))).
  - by rewrite (proj2 (proj2 (add_cat2_fields _ _ _ _))).
  - intros k. rewrite add_cat2_lookup, !remove_cat2_lookup.
    destruct (decide (k = c)) as [->|]; [|done].
    rewrite decide_True by done. rewrite Hm. cbn. rewrite Hl, lookup_insert_eq.
    cbn. f_equal. rewrite insert_insert_eq.
    destruct Hok as [Hs Hnd].
    rewrite decide_False by (by apply remove_first_NoDup).
    rewrite insert_id; [done|]. rewrite Hl. f_equal.
    apply (Sorted_unique str_le); [done|apply sorted_Sorted|].
    rewrite (merge_sort_Permutation str_le). clear -Hx Hnd.
    induction l as [|y l IH]; [by apply elem_of_nil in Hx|]. simpl.
    apply NoDup_cons in Hnd as [Hy Hnd]. case_bool_decide.
    + subst. by rewrite Permutation_app_comm.
    + simpl. apply perm_skip, IH; [done|].
      by apply elem_of_cons in Hx as [->|].
Qed.

Lemma remove_then_add_cat2_witness :
  add_cat2 (py "cn") (py "food") (py "snacks")
    (remove_cat2 (py "cn") (py "food") (py "snacks")
       (sample_store snacks_doc)).2
  = sample_store snacks_doc.
Proof.
  apply remove_then_add_cat2.
  - cbn [sample_store data]. unfold snacks_doc.
    rewrite lookup_singleton_eq. cbn [default from_option id].
    rewrite lookup_singleton_eq. cbn [default from_option id].
    split; repeat constructor. by intros ?%elem_of_nil.
  - apply elem_of_cat2_list. eexists _, _. split_and!.
    + apply lookup_singleton_eq.
    + apply lookup_singleton_eq.
    + by left.
Defined.

(** ** Loading and saving, continued *)

Lemma load_finish_disk rt raw fs :
  (load_finish rt raw fs).1 = fs.
Proof.
  unfold load_finish. destruct (contains_cn raw) as [[]|]; try done.
  by destruct (setitem_cn raw).
Qed.

(** X7: [load] only adds to the disk: whether it returns or raises, every
    file and directory that was there is there unchanged, an existing
    metadata file included (the key [cn] that [load] adds in memory is not
    written back). When it returns, a second [load] from the same root
    returns the same store and changes nothing. *)
Theorem load_again (rt : Path) (fs : FS) :
  fs ⊆ (load rt fs).1
  ∧ ∀ fs1 s, load rt fs = (fs1, Ok s) → load rt fs1 = (fs1, Ok s).
Proof.
  split.
  - rewrite load_unfold.
    pose proof (mkdir_parents_mono [] (meta_dir_of rt) fs) as Hm.
    unfold ensure_dir.
    destruct (mkdir_parents [] (meta_dir_of rt) fs) as [fs1 [[]|e]] eqn:He;
      cbn [fst] in Hm; [|done].
    destruct (fs1 !! meta_file_of rt) as [[|t]|] eqn:E; [done| |].
    + destruct (json_loads t); [|done]. by rewrite load_finish_disk.
    + unfold write_text. rewrite E, parent_meta_file.
      destruct (ensure_meta_dir _ _ _ He) as [-> _].
      rewrite load_finish_disk. etrans; [exact Hm|]. by apply insert_subseteq.
  - intros fs1 s Hload.
    destruct (load_ok _ _ _ _ Hload) as (_ & _ & _ & _ & Hpre & _).
    rewrite load_unfold in Hload |- *. unfold ensure_dir in *.
    rewrite (mkdir_parents_noop _ _ fs1) by done.
    destruct (mkdir_parents [] (meta_dir_of rt) fs) as [fs0 [[]|e]] eqn:He;
      [|done].
    destruct (fs0 !! meta_file_of rt) as [[|t]|] eqn:E; [done| |].
    + destruct (json_loads t) as [raw|] eqn:Ej; [|done].
      pose proof (load_finish_disk rt raw fs0) as Hd. rewrite Hload in Hd.
      cbn [fst] in Hd. subst fs1. by rewrite E, Ej.
    + unfold write_text in Hload. rewrite E, parent_meta_file in Hload.
      destruct (ensure_meta_dir _ _ _ He) as [Hdir _]. rewrite Hdir in Hload.
      set (fs2 := <[meta_file_of rt := _]> fs0) in *.
      pose proof (load_finish_disk rt default_raw fs2) as Hd.
      rewrite Hload in Hd. cbn [fst] in Hd. subst fs1.
      unfold fs2 at 1. rewrite lookup_insert_eq. done.
Qed.

Lemma load_again_witness :
  load sample_root us_meta
    = (us_meta,
       Ok (mkStore sample_root (meta_dir_of sample_root)
             (meta_file_of sample_root) (to_json (ensure_cn us_doc))))
  ∧ us_meta !! meta_file_of sample_root
    = Some (File (JsonText (to_json us_doc))).
Proof.
  assert (load sample_root us_meta
          = (us_meta,
             Ok (mkStore sample_root (meta_dir_of sample_root)
                   (meta_file_of sample_root) (to_json (ensure_cn us_doc)))))
    as H.
  { apply load_existing_doc.
    - apply forallb_is_dir. vm_compute. reflexivity.
    - unfold us_meta. apply lookup_insert_eq. }
  split; [exact (proj2 (load_again sample_root us_meta) _ _ H)|].
  unfold us_meta. apply lookup_insert_eq.
Defined.

(** X8: on a state reachable from [load] whose document can be encoded,
    [save] succeeds and writes the metadata file only; a [load] from the
    same root right after changes nothing on disk and returns a store of
    the declared type equal to the one saved. *)
Theorem save_load_round_trip (w : World) :
  reachable w → doc_encodable (data (the_store w)) →
  ∃ fs2 raw,
    save (the_store w) (disk w) = (fs2, Ok ())
    ∧ (∀ p, p ≠ meta_file (the_store w) → fs2 !! p = disk w !! p)
    ∧ fs2 !! meta_file (the_store w)
      = Some (File (JsonText (to_json (data (the_store w)))))
    ∧ load (root (the_store w)) fs2 = (fs2, Ok raw)
    ∧ typed raw = Some (the_store w).
Proof.
  intros Hr Henc. pose proof (reachable_inv _ Hr) as ([_ Hf] & _).
  destruct (save_then_load _ Hr Henc) as (Hs & Hl & Ht). cbv zeta in *.
  eexists _, _. split_and!; [exact Hs| | |exact Hl|exact Ht].
  - intros p Hp. rewrite lookup_insert_ne; [done|]. by rewrite <- Hf.
  - rewrite <- Hf. apply lookup_insert_eq.
Qed.

Lemma save_load_round_trip_witness :
  ∃ fs2 raw,
    save (sample_store (ensure_cn us_doc)) us_meta = (fs2, Ok ())
    ∧ load sample_root fs2 = (fs2, Ok raw)
    ∧ typed raw = Some (sample_store (ensure_cn us_doc)).
Proof.
  destruct (save_load_round_trip
              (mkWorld (sample_store (ensure_cn us_doc)) us_meta))
    as (fs2 & raw & Hs & _ & _ & Hl & Ht).
  - apply reachable_sample; [vm_compute; reflexivity|].
    unfold us_meta. apply lookup_insert_eq.
  - apply to_json_encodable. vm_compute. reflexivity.
  - exists fs2, raw. split_and!; [exact Hs|exact Hl|exact Ht].
Defined.

(** ** The commands that edit the taxonomy *)

Lemma doc_encodable_default (d : Doc) (c k : pystr) (l : list pystr) :
  doc_encodable d → default ∅ (d !! c) !! k = Some l →
  str_encodable k = true ∧ Forall (λ x, str_encodable x = true) l.
Proof.
  intros H Hl. destruct (d !! c) as [m|] eqn:E; simpl in Hl.
  - destruct (H _ _ E) as [_ Hm]. by apply Hm.
  - by rewrite lookup_empty in Hl.
Qed.

Lemma doc_encodable_default_list (d : Doc) (c k : pystr) :
  doc_encodable d →
  Forall (λ x, str_encodable x = true) (default [] (default ∅ (d !! c) !! k)).
Proof.
  intros H. destruct (default ∅ (d !! c) !! k) as [l|] eqn:E; simpl; [|done].
  by destruct (doc_encodable_default _ _ _ _ H E).
Qed.

(** Every method keeps a document free of surrogates so, when the names
    it adds are. *)
Lemma doc_encodable_apply_op (op : store_op) (s : Store Doc) :
  doc_encodable (data s) → op_encodable op →
  doc_encodable (data (apply_op s op)).
Proof.
  intros H Hop. destruct op; cbn [apply_op op_encodable] in *; intros k m.
  - rewrite add_country_lookup. case_decide; [|by apply H]. subst.
    intros [= <-]. split; [done|]. intros k l. by apply doc_encodable_default.
  - destruct Hop as [Hc H1]. rewrite add_cat1_lookup.
    case_decide; [|by apply H]. subst. cbv zeta. intros [= <-].
    split; [done|]. intros k l. case_decide; [by apply doc_encodable_default|].
    rewrite lookup_insert. case_decide; [by intros [= <-]; subst|].
    by apply doc_encodable_default.
  - destruct Hop as (Hc & H1 & H2). rewrite add_cat2_lookup.
    case_decide; [|by apply H]. subst. cbv zeta. intros [= <-].
    split; [done|]. intros k l. rewrite lookup_insert.
    pose proof (doc_encodable_default_list _ country cat1 H) as Hl.
    case_decide; [|by apply doc_encodable_default]. subst. intros [= <-].
    split; [done|].
    case_decide; [done|]. rewrite sorted_perm.
    apply Forall_app. split; [done|]. by constructor.
  - rewrite remove_cat1_lookup. case_decide; [|by apply H]. subst.
    destruct (data s !! country) as [m0|] eqn:E; [|done].
    intros [= <-]. destruct (H _ _ E) as [Hc Hm]. split; [done|].
    intros k l [_ Hl]%lookup_delete_Some. by apply Hm.
  - rewrite remove_cat2_lookup. case_decide; [|by apply H]. subst.
    destruct (data s !! country) as [m0|] eqn:E; [|done]. simpl.
    intros [= <-]. destruct (H _ _ E) as [Hc Hm]. split; [done|].
    destruct (m0 !! cat1) as [lst|] eqn:El; [|done].
    intros k l. rewrite lookup_insert. case_decide; [|by apply Hm]. subst.
    intros [= <-]. destruct (Hm _ _ El) as [Hk Hlst]. split; [done|].
    apply Forall_forall. intros x Hx. eapply Forall_forall in Hlst; [done|].
    eapply elem_of_sublist; [exact Hx|apply remove_first_sublist].
Qed.

Lemma store_save_ok (w : World) :
  reachable w → doc_encodable (data (the_store w)) →
  let s := the_store w in
  let fs2 := <[meta_file s := File (JsonText (to_json (data s)))]> (disk w) in
  store_save w = (mkWorld s fs2, Ok ())
  ∧ reachable (mkWorld s fs2)
  ∧ load (root s) fs2 = (fs2, Ok (with_data (to_json (data s)) s))
  ∧ typed (with_data (to_json (data s)) s) = Some s.
Proof.
  intros Hr Henc s fs2. pose proof (reachable_inv _ Hr) as ([_ Hf] & _).
  destruct (save_then_load _ Hr Henc) as (Hs & Hl & Ht). cbv zeta in *.
  fold s in Hf, Hs, Hl, Ht. rewrite <- Hf in Hs, Hl. fold fs2 in Hs, Hl.
  assert (store_save w = (mkWorld s fs2, Ok ())) as Hsave.
  { unfold store_save, get_store. rewrite bind_unfold. unfold on_disk.
    fold s. by rewrite Hs. }
  split_and!; [done| |done|done].
  pose proof (reach_save _ Hr) as Hr'. fold s in Hr'. by rewrite Hs in Hr'.
Qed.

Lemma op_then_save (w : World) (op : store_op) :
  reachable w → doc_encodable (data (the_store w)) → op_encodable op →
  let s := apply_op (the_store w) op in
  let fs2 :=
    <[meta_file (the_store w) := File (JsonText (to_json (data s)))]> (disk w) in
  store_save (mkWorld s (disk w)) = (mkWorld s fs2, Ok ())
  ∧ reachable (mkWorld s fs2)
  ∧ load (root (the_store w)) fs2 = (fs2, Ok (with_data (to_json (data s)) s))
  ∧ typed (with_data (to_json (data s)) s) = Some s.
Proof.
  intros Hr Henc Hop s fs2.
  destruct (apply_op_fields op (the_store w)) as (Hroot & _ & Hf).
  pose proof (store_save_ok _ (reach_op op _ Hr)
                (doc_encodable_apply_op op _ Henc Hop)) as H.
  cbn [the_store disk] in H.
  fold s in H, Hroot, Hf. rewrite Hf, Hroot in H. exact H.
Qed.

Lemma op_save_persists (w : World) (op : store_op) :
  reachable w → doc_encodable (data (the_store w)) → op_encodable op →
  ∃ w' raw,
    store_save (mkWorld (apply_op (the_store w) op) (disk w)) = (w', Ok ())
    ∧ the_store w' = apply_op (the_store w) op
    ∧ (∀ p, p ≠ meta_file (the_store w) → disk w' !! p = disk w !! p)
    ∧ load (root (the_store w)) (disk w') = (disk w', Ok raw)
    ∧ typed raw = Some (the_store w').
Proof.
  intros Hr Henc Hop.
  destruct (op_then_save w op Hr Henc Hop) as (Hs & _ & Hl & Ht).
  cbv zeta in *. eexists _, _. split; [exact Hs|]. cbn [the_store disk].
  split_and!; [done| |exact Hl|exact Ht].
  intros p Hp. by rewrite lookup_insert_ne.
Qed.

Lemma add_country_keeps (s : Store Doc) (country c k x : pystr) :
  in_taxonomy (data s) c k x → in_taxonomy (data (add_country country s)) c k x.
Proof.
  intros (m & l & Hm & Hk & Hx). unfold in_taxonomy.
  rewrite add_country_lookup. destruct (decide (c = country)) as [->|];
    [|by eauto]. rewrite Hm. cbn [default from_option id]. eauto.
Qed.

Lemma add_cat1_keeps (s : Store Doc) (country cat1 c k x : pystr) :
  in_taxonomy (data s) c k x →
  in_taxonomy (data (add_cat1 country cat1 s)) c k x.
Proof.
  intros (m & l & Hm & Hk & Hx). unfold in_taxonomy.
  rewrite add_cat1_lookup. destruct (decide (c = country)) as [->|];
    [|by eauto]. rewrite Hm. cbn [default from_option id]. cbv zeta.
  destruct (decide (is_Some (m !! cat1))) as [|Hd]; [by eauto|].
  eexists _, l. split_and!; [done| |done]. rewrite lookup_insert_ne; [done|].
  intros <-. apply Hd. eauto.
Qed.

Lemma add_cat2_keeps (s : Store Doc) (country cat1 cat2 c k x : pystr) :
  in_taxonomy (data s) c k x →
  in_taxonomy (data (add_cat2 country cat1 cat2 s)) c k x.
Proof.
  intros (m & l & Hm & Hk & Hx). unfold in_taxonomy.
  rewrite add_cat2_lookup. destruct (decide (c = country)) as [->|];
    [|by eauto]. rewrite Hm. cbn [default from_option id]. cbv zeta.
  destruct (decide (k = cat1)) as [->|Hne].
  - rewrite Hk. cbn [default from_option id]. eexists _, _.
    split_and!; [done|apply lookup_insert_eq|].
    destruct (decide (cat2 ∈ l)); [done|].
    rewrite elem_of_sorted, elem_of_app. by left.
  - eexists _, l. split_and!; [done| |done]. by rewrite lookup_insert_ne.
Qed.

Lemma add_country_listed (s : Store Doc) (c : pystr) :
  c ∈ countries (add_country c s).
Proof.
  rewrite elem_of_countries, add_country_lookup, decide_True by done. eauto.
Qed.

Lemma add_cat1_listed (s : Store Doc) (c cat1 : pystr) :
  c ∈ countries (add_cat1 c cat1 s) ∧ cat1 ∈ cat1_list (add_cat1 c cat1 s) c.
Proof.
  rewrite elem_of_countries, elem_of_cat1_list.
  rewrite add_cat1_lookup, decide_True by done. cbv zeta.
  split; [by eauto|]. eexists. split; [done|].
  destruct (decide (is_Some (default ∅ (data s !! c) !! cat1))); [done|].
  rewrite lookup_insert_eq. eauto.
Qed.

Lemma add_cat2_listed (s : Store Doc) (c cat1 cat2 : pystr) :
  c ∈ countries (add_cat2 c cat1 cat2 s)
  ∧ cat1 ∈ cat1_list (add_cat2 c cat1 cat2 s) c
  ∧ cat2 ∈ cat2_list (add_cat2 c cat1 cat2 s) c cat1.
Proof.
  rewrite elem_of_countries, elem_of_cat1_list, elem_of_cat2_list.
  unfold in_taxonomy. rewrite add_cat2_lookup, decide_True by done. cbv zeta.
  split_and!; [by eauto| |].
  - eexists. split; [done|]. rewrite lookup_insert_eq. eauto.
  - eexists _, _. split_and!; [done|apply lookup_insert_eq|].
    destruct (decide (cat2 ∈ _)) as [|Hd]; [done|].
    rewrite elem_of_sorted, elem_of_app. right. by apply list_elem_of_singleton.
Qed.

(** X9: [cmd_add] on a state reachable from [load] succeeds when the
    document and the names given are free of surrogates. It changes
    nothing on disk but the metadata file, the country is listed afterwards
    (with the primary category when one is given, and the secondary one
    when both are given), nothing that was listed is lost, and a [load]
    from the same root finds the store as [cmd_add] left it. *)
Theorem cmd_add_persists (w : World) (country : pystr) (cat1 cat2 : option pystr) :
  reachable w → doc_encodable (data (the_store w)) →
  str_encodable country = true →
  str_encodable (default [] cat1) = true →
  str_encodable (default [] cat2) = true →
  ∃ w' raw,
    cmd_add country cat1 cat2 w = (w', Ok ())
    ∧ (∀ p, p ≠ meta_file (the_store w) → disk w' !! p = disk w !! p)
    ∧ load (root (the_store w)) (disk w') = (disk w', Ok raw)
    ∧ typed raw = Some (the_store w')
    ∧ country ∈ countries (the_store w')
    ∧ (truthy cat1 = true → default [] cat1 ∈ cat1_list (the_store w') country)
    ∧ (truthy cat1 = true → truthy cat2 = true →
       default [] cat2
         ∈ cat2_list (the_store w') country (default [] cat1))
    ∧ (∀ c k x, in_taxonomy (data (the_store w)) c k x →
                in_taxonomy (data (the_store w')) c k x).
Proof.
  intros Hr Henc Hc H1' H2'. unfold cmd_add.
  destruct (truthy cat1) eqn:E1; [destruct (truthy cat2) eqn:E2|]; cbn [negb].
  - destruct (op_save_persists w
                (OpAddCat2 country (default [] cat1) (default [] cat2)) Hr Henc)
      as (w' & raw & Hs & Hst & Hd & Hl & Ht); [done|].
    exists w', raw. cbn [apply_op] in *.
    destruct (add_cat2_listed (the_store w) country (default [] cat1)
                (default [] cat2)) as (H1 & H2 & H3).
    rewrite <- Hst in H1, H2, H3.
    split_and!; [exact Hs|exact Hd|exact Hl|exact Ht|exact H1|done|done|].
    intros c k x. rewrite Hst. apply add_cat2_keeps.
  - destruct (op_save_persists w (OpAddCat1 country (default [] cat1)) Hr Henc)
      as (w' & raw & Hs & Hst & Hd & Hl & Ht); [done|].
    exists w', raw. cbn [apply_op] in *.
    destruct (add_cat1_listed (the_store w) country (default [] cat1))
      as (H1 & H2).
    rewrite <- Hst in H1, H2.
    split_and!; [exact Hs|exact Hd|exact Hl|exact Ht|exact H1|done|done|].
    intros c k x. rewrite Hst. apply add_cat1_keeps.
  - destruct (op_save_persists w (OpAddCountry country) Hr Henc)
      as (w' & raw & Hs & Hst & Hd & Hl & Ht); [done|].
    exists w', raw. cbn [apply_op] in *.
    pose proof (add_country_listed (the_store w) country) as H1.
    rewrite <- Hst in H1.
    split_and!; [exact Hs|exact Hd|exact Hl|exact Ht|exact H1|done|done|].
    intros c k x. rewrite Hst. apply add_country_keeps.
Qed.

Lemma cmd_add_persists_witness :
  ∃ w' raw,
    cmd_add (py "jp") (Some (py "tea")) None
      (mkWorld (sample_store (ensure_cn us_doc)) us_meta) = (w', Ok ())
    ∧ load sample_root (disk w') = (disk w', Ok raw)
    ∧ typed raw = Some (the_store w')
    ∧ py "tea" ∈ cat1_list (the_store w') (py "jp").
Proof.
  assert (reachable (mkWorld (sample_store (ensure_cn us_doc)) us_meta))
    as Hr.
  { apply reachable_sample; [vm_compute; reflexivity|].
    unfold us_meta. apply lookup_insert_eq. }
  assert (doc_encodable (ensure_cn us_doc)) as Henc
    by (apply to_json_encodable; vm_compute; reflexivity).
  destruct (cmd_add_persists _ (py "jp") (Some (py "tea")) None Hr Henc)
    as (w' & raw & Hc & _ & Hl & Ht & _ & H1 & _);
    [reflexivity|reflexivity|reflexivity|].
  - exists w', raw. split_and!; [exact Hc|exact Hl|exact Ht|].
    apply H1. reflexivity.
Defined.

(** X10: [cmd_rm] on a state reachable from [load] whose document is free
    of surrogates succeeds and deletes nothing on disk: the directories
    and stubs of what it removes from the taxonomy stay, only the metadata
    file is rewritten. It reports whether the name was listed, no country
    is ever removed, and a [load] from the same root finds the store as
    [cmd_rm] left it. *)
Theorem cmd_rm_persists (w : World) (country cat1 : pystr) (cat2 : option pystr) :
  reachable w → doc_encodable (data (the_store w)) →
  ∃ w' ok raw,
    cmd_rm country cat1 cat2 w = (w', Ok ok)
    ∧ (∀ p, p ≠ meta_file (the_store w) → disk w' !! p = disk w !! p)
    ∧ load (root (the_store w)) (disk w') = (disk w', Ok raw)
    ∧ typed raw = Some (the_store w')
    ∧ (ok = true ↔
       if truthy cat2
       then default [] cat2 ∈ cat2_list (the_store w) country cat1
       else cat1 ∈ cat1_list (the_store w) country)
    ∧ (ok = false → the_store w' = the_store w)
    ∧ countries (the_store w') = countries (the_store w).
Proof.
  intros Hr Henc. unfold cmd_rm. destruct (truthy cat2).
  - destruct (op_save_persists w
                (OpRemoveCat2 country cat1 (default [] cat2)) Hr Henc I)
      as (w' & raw & Hs & Hst & Hd & Hl & Ht). cbn [apply_op] in *.
    pose proof (remove_cat2_flag (the_store w) country cat1 (default [] cat2))
      as Hok.
    pose proof (remove_cat2_false (the_store w) country cat1 (default [] cat2))
      as Hsame.
    pose proof (remove_cat2_countries (the_store w) country cat1
                  (default [] cat2)) as Hc.
    rewrite bind_unfold. unfold update_flag.
    destruct (remove_cat2 country cat1 (default [] cat2) (the_store w))
      as [b s'] eqn:E. cbn [fst snd] in *.
    rewrite bind_unfold, Hs. exists w', b, raw. rewrite Hst.
    split_and!; [done|exact Hd|exact Hl|by rewrite <- Hst|done|done|done].
  - destruct (op_save_persists w (OpRemoveCat1 country cat1) Hr Henc I)
      as (w' & raw & Hs & Hst & Hd & Hl & Ht). cbn [apply_op] in *.
    pose proof (remove_cat1_flag (the_store w) country cat1) as Hok.
    pose proof (remove_cat1_false (the_store w) country cat1) as Hsame.
    pose proof (remove_cat1_countries (the_store w) country cat1) as Hc.
    rewrite bind_unfold. unfold update_flag.
    destruct (remove_cat1 country cat1 (the_store w)) as [b s'] eqn:E.
    cbn [fst snd] in *. rewrite bind_unfold, Hs.
    exists w', b, raw. rewrite Hst.
    split_and!; [done|exact Hd|exact Hl|by rewrite <- Hst|done|done|done].
Qed.

Lemma cmd_rm_persists_witness :
  ∃ w' ok,
    cmd_rm (py "us") (py "food") (Some (py "snacks"))
      (mkWorld (sample_store (ensure_cn us_doc)) us_meta) = (w', Ok ok)
    ∧ countries (the_store w') = countries (sample_store (ensure_cn us_doc)).
Proof.
  assert (reachable (mkWorld (sample_store (ensure_cn us_doc)) us_meta))
    as Hr.
  { apply reachable_sample; [vm_compute; reflexivity|].
    unfold us_meta. apply lookup_insert_eq. }
  assert (doc_encodable (ensure_cn us_doc)) as Henc
    by (apply to_json_encodable; vm_compute; reflexivity).
  destruct (cmd_rm_persists _ (py "us") (py "food") (Some (py "snacks"))
              Hr Henc)
    as (w' & ok & raw & Hc & _ & _ & _ & _ & _ & Hk).
  exists w', ok. split; [exact Hc|exact Hk].
Defined.

(** ** Directories *)

Lemma prefix_prefixes_from (q done : Path) (todo : list pystr) :
  q `prefix_of` done ++ todo → (length done ≤ length q)%nat →
  q ∈ prefixes_from done todo.
Proof.
  revert done. induction todo as [|c t IH]; intros done Hp Hl.
  - rewrite app_nil_r in Hp. simpl. apply list_elem_of_singleton.
    by apply prefix_length_eq.
  - simpl. destruct (decide (length q = length done)) as [He|Hne].
    + apply elem_of_cons. left. destruct Hp as [k Hk].
      apply (f_equal (take (length q))) in Hk.
      rewrite take_app_length in Hk. by rewrite He, take_app_length in Hk.
    + apply elem_of_cons. right. apply IH.
      * by rewrite <- app_assoc.
      * rewrite length_app. simpl. lia.
Qed.

Lemma elem_of_prefixes_from (q p : Path) :
  q ∈ prefixes_from [] p ↔ q `prefix_of` p.
Proof.
  split; [apply prefixes_from_prefix|]. intros H.
  apply prefix_prefixes_from; [done|simpl; lia].
Qed.

(** X11: for a path of portable names, [ensure_dir] returns exactly when
    no regular file is at the path or above it. When it returns, the path
    and everything above it are directories, nothing else has changed, and
    a second call changes nothing. *)
Theorem ensure_dir_result (p : Path) (fs : FS) :
  os_path p = true →
  ((∃ fs', ensure_dir p fs = (fs', Ok ()))
   ↔ ∀ q t, q `prefix_of` p → fs !! q ≠ Some (File t))
  ∧ ∀ fs', ensure_dir p fs = (fs', Ok ()) →
      (∀ q, q `prefix_of` p → fs' !! q = Some Dir)
      ∧ (∀ q, ¬ q `prefix_of` p → fs' !! q = fs !! q)
      ∧ (∀ q, is_Some (fs !! q) → fs' !! q = fs !! q)
      ∧ ensure_dir p fs' = (fs', Ok ()).
Proof.
  intros _. split; [split|].
  - intros [fs' Hrun] q t Hq Hfile.
    pose proof (mkdir_parents_mono [] p fs) as Hm. unfold ensure_dir in Hrun.
    rewrite Hrun in Hm. cbn [fst] in Hm.
    apply mkdir_parents_ok in Hrun as [Hdir _].
    apply elem_of_prefixes_from, Hdir in Hq.
    eapply lookup_weaken in Hfile; [|exact Hm]. congruence.
  - intros H. apply mkdir_parents_total. intros q t Hq.
    apply H. by apply elem_of_prefixes_from.
  - intros fs' Hrun.
    pose proof (mkdir_parents_mono [] p fs) as Hm. unfold ensure_dir in *.
    rewrite Hrun in Hm. cbn [fst] in Hm.
    apply mkdir_parents_ok in Hrun as [Hdir Hout]. split_and!.
    + intros q Hq. by apply Hdir, elem_of_prefixes_from.
    + intros q Hq. apply Hout. by rewrite elem_of_prefixes_from.
    + intros q [x Hx]. rewrite Hx. by eapply lookup_weaken.
    + by apply mkdir_parents_noop.
Qed.

Lemma ensure_dir_result_witness :
  ∃ fs', ensure_dir snacks_dir empty_root = (fs', Ok ())
         ∧ fs' !! snacks_dir = Some Dir
         ∧ ensure_dir snacks_dir fs' = (fs', Ok ()).
Proof.
  assert ((ensure_dir snacks_dir empty_root).2 = Ok ()) as E2
    by (vm_compute; reflexivity).
  destruct (ensure_dir snacks_dir empty_root) as [fs' r] eqn:E.
  simpl in E2. subst r. exists fs'. split; [reflexivity|].
  destruct (proj2 (ensure_dir_result snacks_dir empty_root
                     (eq_refl : os_path snacks_dir = true)) fs' E)
    as (Hdir & _ & _ & Hagain).
  split; [|exact Hagain]. by apply Hdir.
Defined.

(** ** The synchroniser and the taxonomy *)


Lemma elem_of_sync_countries (self : Store Doc) (country : option pystr) (c : pystr) :
  c ∈ sync_countries self country
  ↔ if truthy country then c = default [] country else c ∈ countries self.
Proof.
  unfold sync_countries. destruct (truthy country); [|done].
  apply list_elem_of_singleton.
Qed.

Lemma sync_flat_grows (L : list Path) (created : list Path) (fs fs' : FS)
    (created' : list Path) :
  foldM sync_step created L fs = (fs', Ok created') →
  ∀ p, p ∈ created → p ∈ created'.
Proof.
  revert created fs. induction L as [|p L IH]; intros created fs Hrun q Hq.
  - cbv in Hrun. by simplify_eq.
  - simpl in Hrun. rewrite bind_unfold, sync_step_unfold in Hrun.
    destruct (fs !! p) as [x|]; [by eapply IH|].
    destruct (ensure_dir p fs) as [fs1 [[]|e]]; [|done].
    eapply IH; [exact Hrun|]. apply elem_of_app. by left.
Qed.

Lemma sync_flat_new (L : list Path) (created : list Path) (fs fs' : FS)
    (created' : list Path) :
  foldM sync_step created L fs = (fs', Ok created') →
  ∀ q, fs' !! q ≠ fs !! q → ∃ p, p ∈ created' ∧ q `prefix_of` p.
Proof.
  revert created fs. induction L as [|p L IH]; intros created fs Hrun q Hq.
  - cbv in Hrun. by simplify_eq.
  - simpl in Hrun. rewrite bind_unfold, sync_step_unfold in Hrun.
    destruct (fs !! p) as [x|] eqn:E; [by eapply IH|].
    destruct (ensure_dir p fs) as [fs1 [[]|e]] eqn:He; [|done].
    destruct (decide (q ∈ prefixes_from [] p)) as [Hin|Hout].
    + exists p. split; [|by apply elem_of_prefixes_from].
      eapply sync_flat_grows; [exact Hrun|]. apply elem_of_app. right.
      by apply list_elem_of_singleton.
    + apply mkdir_parents_ok in He as [_ Hsame]. apply Hsame in Hout.
      eapply IH; [exact Hrun|]. by rewrite Hout.
Qed.



(** ** The record generator of [dr_manager], continued *)

Lemma in_taxonomy_checks (d : Doc) (c k x : pystr) :
  in_taxonomy d c k x
  ↔ bool_decide (is_Some (d !! c)) = true
    ∧ bool_decide (is_Some ((d !!! c) !! k)) = true
    ∧ bool_decide (x ∈ default [] ((d !!! c) !! k)) = true.
Proof.
  rewrite !bool_decide_eq_true. unfold in_taxonomy. split.
  - intros (m & l & Hm & Hk & Hx). rewrite (lookup_total_Some _ _ _ Hm), Hk.
    rewrite Hm. split_and!; by eauto.
  - intros ([m Hm] & Hk & Hx). rewrite (lookup_total_Some _ _ _ Hm) in Hk, Hx.
    destruct Hk as [l Hk]. rewrite Hk in Hx. by exists m, l.
Qed.

Lemma parent_gen_path (self : Store Doc) (c k x name : pystr) :
  parent (gen_path self c k x name) = target_dir self c k x.
Proof. unfold parent, gen_path. apply removelast_last. Qed.

Lemma gen_path_not_prefix (self : Store Doc) (c k x name : pystr) (q : Path) :
  q `prefix_of` target_dir self c k x → q ≠ gen_path self c k x name.
Proof.
  intros Hq%prefix_length ->. unfold gen_path in Hq.
  rewrite length_app in Hq. simpl in Hq. lia.
Qed.

Lemma in_taxonomy_triple (self : Store Doc) (c k x : pystr) :
  in_taxonomy (data self) c k x → (c, k, x) ∈ triples self (Some c).
Proof.
  intros Htax. apply elem_of_triples. split_and!.
  - apply elem_of_sync_countries. destruct (truthy (Some c)); [done|].
    apply elem_of_countries. destruct Htax as (m & _ & -> & _). eauto.
  - apply elem_of_cat1_list. destruct Htax as (m & l & Hm & Hk & _). eauto.
  - by apply elem_of_cat2_list.
Qed.

Lemma target_dir_taxonomy (self : Store Doc) (c k x : pystr) :
  names_ok self (Some c) = true → in_taxonomy (data self) c k x →
  target_dir self c k x = root self ++ [c; k; x].
Proof.
  intros Hok Htax. apply target_dir_portable.
  eapply names_ok_triple; [exact Hok|]. by apply in_taxonomy_triple.
Qed.

(** What a request that succeeds went through. *)
Lemma cmd_gen_ok_inv
  (now country cat1 cat2 name desc : pystr) (overwrite : bool) (w w1 : World) :
  cmd_gen now country cat1 cat2 name desc overwrite w = (w1, Ok ()) →
  let store := the_store w in
  let out := gen_path store country cat1 cat2 name in
  in_taxonomy (data store) country cat1 cat2
  ∧ ∃ fs1 created fs2,
      sync_dirs store (Some country) (disk w) = (fs1, Ok created)
      ∧ ensure_dir (target_dir store country cat1 cat2) fs1 = (fs2, Ok ())
      ∧ (overwrite = false → fs2 !! out = None)
      ∧ fs2 !! out ≠ Some Dir
      ∧ str_encodable (render_yaml_template [] name desc country cat1 cat2)
        = true
      ∧ w1 = mkWorld store
               (<[out := File (Plain (render_yaml_template now name desc
                                        country cat1 cat2))]> fs2).
Proof.
  rewrite cmd_gen_unfold. cbv zeta. rewrite in_taxonomy_checks.
  destruct (bool_decide (is_Some (data (the_store w) !! country))); [|done].
  destruct (bool_decide (is_Some ((data (the_store w) !!! country) !! cat1)));
    [|done].
  destruct (bool_decide
              (cat2 ∈ default [] ((data (the_store w) !!! country) !! cat1)));
    [|done].
  cbn [negb].
  destruct (sync_dirs (the_store w) (Some country) (disk w))
    as [fs1 [created|e]] eqn:Hs; [|done].
  destruct (ensure_dir (target_dir (the_store w) country cat1 cat2) fs1)
    as [fs2 [[]|e]] eqn:He; [|done].
  set (out := gen_path (the_store w) country cat1 cat2 name).
  destruct (bool_decide (is_Some (fs2 !! out)) && negb overwrite) eqn:B; [done|].
  destruct (str_encodable _) eqn:Henc;
    [|by destruct ((write_text out (Plain []) fs2).2)].
  unfold write_text. intros Hrun. split; [done|].
  exists fs1, created, fs2. split_and!; [done|done| | |done|].
  - intros ->. rewrite andb_true_r in B. apply bool_decide_eq_false in B.
    by apply eq_None_not_Some.
  - intros Hd. by rewrite Hd in Hrun.
  - destruct (fs2 !! out) as [[|t0]|]; [done| |];
      (destruct (fs2 !! parent out) as [[|t1]|]; [|done|done]);
      cbn [fst snd] in Hrun; by injection Hrun as <-.
Qed.

(** X13: for names that are single portable path segments: when [cmd_gen]
    returns, the triple is in the taxonomy, the store is the one it was
    called with, the directory [root/country/cat1/cat2] is a directory and
    the file in it named by the sanitised product name holds the rendered
    stub, whose text can be encoded. Every other entry that was on disk is
    unchanged, and without the overwrite flag the path of the file held
    nothing before. *)
Theorem cmd_gen_success
  (now country cat1 cat2 name desc : pystr) (overwrite : bool) (w w1 : World) :
  names_ok (the_store w) (Some country) = true →
  cmd_gen now country cat1 cat2 name desc overwrite w = (w1, Ok ()) →
  let dir := root (the_store w) ++ [country; cat1; cat2] in
  let out := dir ++ [slugify_filename name ++ py ".yaml"] in
  in_taxonomy (data (the_store w)) country cat1 cat2
  ∧ the_store w1 = the_store w
  ∧ disk w1 !! out
    = Some (File (Plain (render_yaml_template now name desc country cat1 cat2)))
  ∧ str_encodable (render_yaml_template [] name desc country cat1 cat2) = true
  ∧ disk w1 !! dir = Some Dir
  ∧ (∀ p, p ≠ out → is_Some (disk w !! p) → disk w1 !! p = disk w !! p)
  ∧ (overwrite = false → disk w !! out = None).
Proof.
  intros Hok Hrun. pose proof Hrun as [Htax _]%cmd_gen_ok_inv.
  rewrite <- (target_dir_taxonomy _ _ _ _ Hok Htax).
  fold (gen_path (the_store w) country cat1 cat2 name). clear Htax.
  revert Hrun.
  intros (Htax & fs1 & created & fs2 & Hs & He & Hnew & _ & Henc & ->)%cmd_gen_ok_inv
    dir out.
  cbv zeta in *. fold out in Hnew |- *. cbn [the_store disk].
  pose proof (sync_flat_mono (triple_paths (the_store w) (Some country)) []
                (disk w)) as H1.
  rewrite <- sync_dirs_flat, Hs in H1. cbn [fst] in H1.
  pose proof (mkdir_parents_mono [] (target_dir (the_store w) country cat1 cat2)
                fs1) as H2.
  unfold ensure_dir in He. rewrite He in H2. cbn [fst] in H2.
  apply mkdir_parents_ok in He as [Hdir _].
  split_and!; [done|done|apply lookup_insert_eq|done| | |].
  - rewrite lookup_insert_ne.
    + apply Hdir, (prefixes_from_last []).
    + apply not_eq_sym. by apply gen_path_not_prefix.
  - intros p Hp [x Hx]. rewrite lookup_insert_ne by done. rewrite Hx.
    eapply lookup_weaken; [|exact H2]. by eapply lookup_weaken.
  - intros Hov. specialize (Hnew Hov).
    destruct (disk w !! out) as [x|] eqn:E; [|done].
    eapply lookup_weaken in E; [|exact H1].
    eapply lookup_weaken in E; [|exact H2].
    change (fs2 !! out = None) in Hnew. congruence.
Qed.

Lemma cmd_gen_success_witness :
  ∃ w1,
    cmd_gen [] (py "cn") (py "food") (py "snacks") (py "Spicy Chips!") [] false
      (mkWorld (sample_store snacks_doc) empty_root) = (w1, Ok ())
    ∧ disk w1 !! (snacks_dir ++ [slugify_filename (py "Spicy Chips!")
                                   ++ py ".yaml"])
      = Some (File (Plain (render_yaml_template [] (py "Spicy Chips!") []
                             (py "cn") (py "food") (py "snacks")))).
Proof.
  assert ((cmd_gen [] (py "cn") (py "food") (py "snacks") (py "Spicy Chips!")
             [] false (mkWorld (sample_store snacks_doc) empty_root)).2
          = Ok ()) as E2 by (vm_compute; reflexivity).
  destruct (cmd_gen [] (py "cn") (py "food") (py "snacks") (py "Spicy Chips!")
              [] false (mkWorld (sample_store snacks_doc) empty_root))
    as [w1 r] eqn:E.
  simpl in E2. subst r. exists w1. split; [reflexivity|].
  destruct (cmd_gen_success [] (py "cn") (py "food") (py "snacks")
              (py "Spicy Chips!") [] false
              (mkWorld (sample_store snacks_doc) empty_root) w1
              (eq_refl : names_ok (sample_store snacks_doc) (Some (py "cn"))
                         = true) E) as (_ & _ & Hfile & _).
  exact Hfile.
Defined.

Lemma write_text_other (out : Path) (t : text) (fs : FS) (p : Path) :
  p ≠ out → (write_text out t fs).1 !! p = fs !! p.
Proof.
  intros Hp. unfold write_text.
  destruct (fs !! out) as [[|t0]|]; [done| |];
    (destruct (fs !! parent out) as [[|t1]|]; [|done|done]);
    cbn [fst]; by rewrite lookup_insert_ne.
Qed.

Lemma write_text_new (out : Path) (t : text) (fs : FS) :
  fs !! out = None → fs ⊆ (write_text out t fs).1.
Proof.
  intros Hp. unfold write_text. rewrite Hp.
  destruct (fs !! parent out) as [[|t1]|]; [|done|done].
  cbn [fst]. by apply insert_subseteq.
Qed.

(** X14: for names that are single portable path segments: whatever its
    outcome, [cmd_gen] leaves the store as it was and changes no existing
    entry of the disk other than the target path; and without the
    overwrite flag it changes no existing entry at all: when the target
    path holds something the request fails. *)
Theorem cmd_gen_never_loses
  (now country cat1 cat2 name desc : pystr) (overwrite : bool) (w : World) :
  names_ok (the_store w) (Some country) = true →
  let r := cmd_gen now country cat1 cat2 name desc overwrite w in
  let out := gen_path (the_store w) country cat1 cat2 name in
  the_store r.1 = the_store w
  ∧ (∀ p, p ≠ out → is_Some (disk w !! p) → disk r.1 !! p = disk w !! p)
  ∧ (overwrite = false → disk w ⊆ disk r.1)
  ∧ (overwrite = false → is_Some (disk w !! out) → ∃ e, r.2 = Raise e).
Proof.
  intros _ r out.
  assert (the_store r.1 = the_store w
          ∧ ∃ fs2, disk w ⊆ fs2
              ∧ (disk r.1 = fs2 ∧ (is_Some (disk w !! out) → ∃ e, r.2 = Raise e)
                 ∨ (overwrite = true ∨ fs2 !! out = None)
                   ∧ ∃ t, disk r.1 = (write_text out t fs2).1))
    as (Hst & fs2 & Hsub & Hcase).
  { unfold r. rewrite cmd_gen_unfold. cbv zeta. fold out.
    destruct (negb _); [by eauto 10|]. destruct (negb _); [by eauto 10|].
    destruct (negb _); [by eauto 10|].
    pose proof (sync_flat_mono (triple_paths (the_store w) (Some country)) []
                  (disk w)) as H1.
    rewrite <- sync_dirs_flat in H1.
    destruct (sync_dirs (the_store w) (Some country) (disk w))
      as [fs1 [created|e]]; cbn [fst] in H1; [|by eauto 10].
    pose proof (mkdir_parents_mono []
                  (target_dir (the_store w) country cat1 cat2) fs1) as H2.
    unfold ensure_dir.
    destruct (mkdir_parents [] (target_dir (the_store w) country cat1 cat2) fs1)
      as [fs2 [[]|e]]; cbn [fst] in H2.
    - assert (disk w ⊆ fs2) as H3 by (by etrans).
      destruct (bool_decide (is_Some (fs2 !! out)) && negb overwrite) eqn:B.
      + split; [done|]. exists fs2. split; [done|]. left. by eauto.
      + assert (overwrite = true ∨ fs2 !! out = None) as Hfree.
        { destruct overwrite; [by left|right]. rewrite andb_true_r in B.
          apply bool_decide_eq_false in B. by apply eq_None_not_Some. }
        destruct (str_encodable _); (split; [done|]); exists fs2;
          (split; [done|]); right; (split; [done|]); by eauto.
    - split; [done|]. exists fs2. split; [by etrans|]. left. by eauto. }
  split_and!; [done| | |].
  - intros p Hp [x Hx]. rewrite Hx.
    destruct Hcase as [[-> _]|(_ & t & ->)].
    + by eapply lookup_weaken.
    + rewrite write_text_other by done. by eapply lookup_weaken.
  - intros ->. destruct Hcase as [[-> _]|([|Hnone] & t & ->)]; [done|done|].
    etrans; [exact Hsub|]. by apply write_text_new.
  - intros -> [x Hx]. destruct Hcase as [[_ H]|([|Hnone] & _)]; [by eauto|done|].
    eapply lookup_weaken in Hx; [|exact Hsub]. congruence.
Qed.

Lemma cmd_gen_never_loses_witness :
  disk (mkWorld (sample_store snacks_doc) empty_root)
  ⊆ disk (cmd_gen [] (py "cn") (py "food") (py "snacks") (py "Spicy Chips!")
            [] false (mkWorld (sample_store snacks_doc) empty_root)).1.
Proof.
  destruct (cmd_gen_never_loses [] (py "cn") (py "food") (py "snacks")
              (py "Spicy Chips!") [] false
              (mkWorld (sample_store snacks_doc) empty_root)
              (eq_refl : names_ok (sample_store snacks_doc) (Some (py "cn"))
                         = true))
    as (_ & _ & H & _).
  by apply H.
Defined.

Lemma cmd_gen_run
  (now country cat1 cat2 name desc : pystr) (overwrite : bool) (w : World)
  (fs1 fs2 : FS) (created : list Path) :
  let store := the_store w in
  let out := gen_path store country cat1 cat2 name in
  in_taxonomy (data store) country cat1 cat2 →
  sync_dirs store (Some country) (disk w) = (fs1, Ok created) →
  ensure_dir (target_dir store country cat1 cat2) fs1 = (fs2, Ok ()) →
  fs2 !! out ≠ Some Dir →
  cmd_gen now country cat1 cat2 name desc overwrite w
  = if bool_decide (is_Some (fs2 !! out)) && negb overwrite
    then (mkWorld store fs2, Raise (SystemExit (msg_exists out)))
    else if str_encodable (render_yaml_template [] name desc country cat1 cat2)
    then (mkWorld store
            (<[out := File (Plain (render_yaml_template now name desc
                                     country cat1 cat2))]> fs2), Ok ())
    else (mkWorld store (<[out := File (Plain [])]> fs2),
          Raise UnicodeEncodeError).
Proof.
  intros store out (H1 & H2 & H3)%in_taxonomy_checks Hs He Hnd.
  rewrite cmd_gen_unfold. cbv zeta. fold store. rewrite H1, H2, H3. cbn [negb].
  rewrite Hs, He. fold out.
  destruct (bool_decide (is_Some (fs2 !! out)) && negb overwrite); [done|].
  unfold write_text. pose proof He as [Hdir _]%mkdir_parents_ok.
  assert (fs2 !! parent out = Some Dir) as ->.
  { unfold out. rewrite parent_gen_path. apply Hdir, (prefixes_from_last []). }
  destruct (str_encodable _); by destruct (fs2 !! out) as [[|t0]|].
Qed.



Lemma sync_flat_files (L : list Path) (created : list Path) (fs fs' : FS)
    (created' : list Path) (q : Path) (t : text) :
  foldM sync_step created L fs = (fs', Ok created') →
  fs' !! q = Some (File t) → fs !! q = Some (File t).
Proof.
  revert created fs. induction L as [|p L IH]; intros created fs Hrun Hq.
  - cbv in Hrun. by simplify_eq.
  - simpl in Hrun. rewrite bind_unfold, sync_step_unfold in Hrun.
    destruct (fs !! p) as [x|] eqn:E; [by eapply IH|].
    destruct (ensure_dir p fs) as [fs1 [[]|e]] eqn:He; [|done].
    eapply ensure_dir_files; [exact He|]. by eapply IH.
Qed.

Lemma gen_out_untouched
  (store : Store Doc) (country cat1 cat2 name : pystr) (fs fs1 fs2 : FS)
  (created : list Path) :
  names_ok store (Some country) = true →
  in_taxonomy (data store) country cat1 cat2 →
  sync_dirs store (Some country) fs = (fs1, Ok created) →
  ensure_dir (target_dir store country cat1 cat2) fs1 = (fs2, Ok ()) →
  fs2 !! gen_path store country cat1 cat2 name
  = fs !! gen_path store country cat1 cat2 name.
Proof.
  intros Hok Htax Hs He. set (out := gen_path store country cat1 cat2 name).
  rewrite sync_dirs_flat in Hs.
  destruct (mkdir_parents_ok _ _ _ _ He) as [_ Hsame]. rewrite Hsame.
  - destruct (fs !! out) as [x|] eqn:E.
    + pose proof (sync_flat_mono (triple_paths store (Some country)) [] fs)
        as Hm.
      rewrite Hs in Hm. by eapply lookup_weaken.
    + destruct (fs1 !! out) as [y|] eqn:E1; [|done]. exfalso.
      destruct (sync_flat_new _ _ _ _ _ Hs out) as (p & Hp & Hpre).
      { by rewrite E, E1. }
      destruct (sync_flat_ok _ _
                  (λ p, triple_paths_length store (Some country) p Hok)
                  _ _ _ _ Hs) as (new & -> & _ & _ & Hin & _).
      cbn [app] in Hp. apply Hin in Hp as [Hp _].
      apply (triple_paths_length _ _ _ Hok) in Hp. apply prefix_length in Hpre.
      unfold out, gen_path in Hpre.
      rewrite (target_dir_taxonomy _ _ _ _ Hok Htax) in Hpre.
      rewrite !length_app in Hpre. simpl in Hpre. lia.
  - intros Hin%prefixes_from_prefix. by eapply gen_path_not_prefix.
Qed.

Lemma cmd_gen_total
  (now country cat1 cat2 name desc : pystr) (overwrite : bool) (w : World) :
  let store := the_store w in
  let out := gen_path store country cat1 cat2 name in
  names_ok store (Some country) = true →
  in_taxonomy (data store) country cat1 cat2 →
  (∀ p q t, p ∈ triple_paths store (Some country) → q `prefix_of` p →
            disk w !! q ≠ Some (File t)) →
  disk w !! out ≠ Some Dir →
  overwrite = true ∨ disk w !! out = None →
  str_encodable (render_yaml_template [] name desc country cat1 cat2) = true →
  ∃ fs2,
    cmd_gen now country cat1 cat2 name desc overwrite w
    = (mkWorld store
         (<[out := File (Plain (render_yaml_template now name desc
                                  country cat1 cat2))]> fs2), Ok ()).
Proof.
  intros store out Hok Htax Hfiles Hnd Hfree Henc.
  assert (target_dir store country cat1 cat2
            ∈ triple_paths store (Some country)) as HT.
  { apply elem_of_triple_paths. exists country, cat1, cat2.
    split; [|done]. by apply in_taxonomy_triple. }
  destruct (sync_flat_total (triple_paths store (Some country)) [] (disk w))
    as (fs1 & created & Hs).
  { intros p q t Hp Hq _. by apply (Hfiles p). }
  destruct (mkdir_parents_total [] (target_dir store country cat1 cat2) fs1)
    as [fs2 He].
  { intros q t Hq%prefixes_from_prefix Hfile.
    apply (Hfiles _ q t HT Hq). by eapply sync_flat_files. }
  rewrite <- sync_dirs_flat in Hs.
  pose proof (gen_out_untouched store country cat1 cat2 name _ _ _ _
                Hok Htax Hs He) as Hout. fold out in Hout.
  exists fs2.
  rewrite (cmd_gen_run now country cat1 cat2 name desc overwrite w fs1 fs2
             created Htax Hs He).
  - fold store. fold out. rewrite Hout, Henc.
    destruct Hfree as [Hov | Hnone]; [rewrite Hov|rewrite Hnone].
    + by rewrite andb_false_r.
    + by rewrite bool_decide_eq_false_2 by (by intros []).
  - fold store. fold out. by rewrite Hout.
Qed.

(** X16: for names that are single portable path segments, the name of
    the stub included: when the triple is in the taxonomy and no regular
    file is at or above a category directory of the country, [cmd_gen]
    succeeds exactly when the target path is not a directory, is free or
    the overwrite flag is given, and the text of the stub can be
    encoded. *)
Theorem cmd_gen_succeeds
  (now country cat1 cat2 name desc : pystr) (overwrite : bool) (w : World) :
  let store := the_store w in
  let out := gen_path store country cat1 cat2 name in
  names_ok store (Some country) = true →
  os_path out = true →
  in_taxonomy (data store) country cat1 cat2 →
  (∀ p q t, p ∈ triple_paths store (Some country) → q `prefix_of` p →
            disk w !! q ≠ Some (File t)) →
  (∃ w1, cmd_gen now country cat1 cat2 name desc overwrite w = (w1, Ok ()))
  ↔ disk w !! out ≠ Some Dir ∧ (overwrite = true ∨ disk w !! out = None)
    ∧ str_encodable (render_yaml_template [] name desc country cat1 cat2)
      = true.
Proof.
  intros store out Hok _ Htax Hfiles. split.
  - intros [w1 Hrun].
    apply cmd_gen_ok_inv in Hrun
      as (_ & fs1 & created & fs2 & Hs & He & Hnew & Hnd & Henc & _).
    cbv zeta in *. fold store in Hs, He, Hnew, Hnd. fold out in Hnew, Hnd.
    pose proof (gen_out_untouched store country cat1 cat2 name _ _ _ _
                  Hok Htax Hs He) as Hout.
    fold out in Hout. rewrite Hout in Hnew, Hnd.
    split_and!; [done| |done].
    destruct overwrite; [by left|right; by apply Hnew].
  - intros (Hnd & Hfree & Henc).
    destruct (cmd_gen_total now country cat1 cat2 name desc overwrite w
                Hok Htax Hfiles Hnd Hfree Henc) as [fs2 ->]. by eauto.
Qed.

Lemma cmd_gen_succeeds_witness :
  ∃ w1,
    cmd_gen [] (py "cn") (py "food") (py "snacks") (py "Spicy Chips!") [] false
      (mkWorld (sample_store snacks_doc) ∅) = (w1, Ok ()).
Proof.
  apply cmd_gen_succeeds.
  - reflexivity.
  - vm_compute. reflexivity.
  - eexists _, _. split_and!.
    + cbn [sample_store data the_store]. unfold snacks_doc.
      apply lookup_singleton_eq.
    + apply lookup_singleton_eq.
    + by apply list_elem_of_singleton.
  - intros p q t _ _. cbn [disk]. by rewrite lookup_empty.
  - cbn [disk]. split_and!; [by rewrite lookup_empty| |reflexivity].
    right. apply lookup_empty.
Defined.

(** ** Runs of the program *)

















